(** * Dispatcharr front-end: the server-synchronised table controller

    A shallow embedding of three React components of the front-end,
    - [StreamsTable]   (components/tables/StreamsTable.jsx): pagination,
      sorting, debounced filters and the fetch they drive;
    - [M3UProfile]     (components/forms/M3UProfile.jsx): the live regex
      preview and its debounced patterns;
    - [ChannelStreams] (drag-and-drop reordering of a channel's streams);
    followed by the properties of the specification, stated over them.

    React state cells are record fields, [setX] calls are record updates,
    and an event handler is a function from state to state.  Asynchronous
    completions (a timer that fires, a promise that settles) are handlers
    of their own, so that a run of the component is a sequence of handler
    applications.  Numbers are the integers the tables work with ([Z]);
    the clock is in milliseconds. *)

From stdpp Require Import base list strings pretty.
From Stdlib Require Import ZArith Lia.

Local Open Scope Z_scope.

(** ** Values shared by the components *)

(** A row of a paged remote data set; only its identifier matters to the
    control plane, the other fields are carried along. *)
Record Row := {
  row_id : Z;
  row_name : string;
  row_m3u_account : Z;
}.

Global Instance Row_eq_dec : EqDecision Row.
Proof. solve_decision. Defined.

(** A one-shot timer armed by [setTimeout]: the time at which it is due
    and the value its callback captured. *)
Definition Timer (V : Type) : Type := Z * V.

(** The quiet period of both debounces. *)
Definition debounceDelay : Z := 500.

(** ** The event loop: user events and one cancellable timer

    [pending] reads the armed timer out of the component state, [fire]
    is the timer's callback, [handle] a user event arriving at a given
    time.  A timer is run when the loop reaches an event at or after
    its deadline, before that event is handled. *)
Module EventLoop.
Section Timers.
Context {St V Ev : Type}.
Variable pending : St → option (Timer V).
Variable fire : V → St → St.
Variable handle : Z → Ev → St → St.

Definition advance (now : Z) (s : St) : St :=
  match pending s with
  | Some (deadline, v) => if deadline <=? now then fire v s else s
  | None => s
  end.

Fixpoint run (evs : list (Z * Ev)) (s : St) : St :=
  match evs with
  | [] => s
  | (t, e) :: rest => run rest (handle t e (advance t s))
  end.

(** The events applied one after the other with no timer running in
    between. *)
Fixpoint replay (evs : list (Z * Ev)) (s : St) : St :=
  match evs with
  | [] => s
  | (t, e) :: rest => replay rest (handle t e s)
  end.

(** Along the succession of the events, each of them re-arms the timer
    for a full quiet period. *)
Fixpoint rearms (evs : list (Z * Ev)) (s : St) : Prop :=
  match evs with
  | [] => True
  | (t, e) :: rest =>
      (∃ v, pending (handle t e s) = Some (t + debounceDelay, v))
      ∧ rearms rest (handle t e s)
  end.
End Timers.

(** A burst continued: events following an event at time [t], each less
    than the quiet period after the one before it. *)
Fixpoint burstFrom {Ev : Type} (t : Z) (evs : list (Z * Ev)) : bool :=
  match evs with
  | [] => true
  | (t', _) :: rest =>
      (t <=? t') && (t' <? t + debounceDelay) && burstFrom t' rest
  end.

(** Time of the last event of a run that started at [t]. *)
Fixpoint lastTime {Ev : Type} (t : Z) (evs : list (Z * Ev)) : Z :=
  match evs with
  | [] => t
  | (t', _) :: rest => lastTime t' rest
  end.
End EventLoop.

(** ** StreamsTable *)
Module StreamsTable.

(** The [desc] field of a sorting entry.  The handlers store the booleans,
    the initial state stores the empty string. *)
Inductive DescVal :=
  | DescEmptyStr
  | DescBool (b : bool).

(** [d ? .. : ..] *)
Definition truthy (d : DescVal) : bool :=
  match d with
  | DescEmptyStr => false
  | DescBool b => b
  end.

(** [d == false]: loose equality converts both sides to numbers, and the
    empty string converts to 0. *)
Definition looseEqFalse (d : DescVal) : bool :=
  match d with
  | DescEmptyStr => true
  | DescBool b => negb b
  end.

Record SortEntry := {
  sort_id : string;
  sort_desc : DescVal;
}.

Record Pagination := {
  pageIndex : Z;
  pageSize : Z;
}.

(** A filter value: the text of an input or of a single select, or the
    array a multi-select hands over. *)
Inductive FilterVal :=
  | FStr (s : string)
  | FArr (l : list string).

(** [if (value)]: a string is truthy unless empty, an array always. *)
Definition filterTruthy (v : FilterVal) : bool :=
  match v with
  | FStr s => negb (String.eqb s "")
  | FArr _ => true
  end.

Fixpoint joinComma (l : list string) : string :=
  match l with
  | [] => ""
  | [x] => x
  | x :: rest => x +:+ "," +:+ joinComma rest
  end.

(** The string [URLSearchParams.append] stores for a value. *)
Definition filterToString (v : FilterVal) : string :=
  match v with
  | FStr s => s
  | FArr l => joinComma l
  end.

(** The filter object, its keys in insertion order as [Object.entries]
    lists them. *)
Definition Filters : Type := list (string * FilterVal).

(** [{...prev, [key]: value}]: an existing key keeps its place, a new
    one goes last. *)
Fixpoint objSet (key : string) (value : FilterVal) (o : Filters) : Filters :=
  match o with
  | [] => [(key, value)]
  | (k, v) :: rest =>
      if String.eqb k key then (k, value) :: rest
      else (k, v) :: objSet key value rest
  end.

(** [URLSearchParams]: name/value pairs in the order of the appends. *)
Definition Params : Type := list (string * string).

Record QueryResult := {
  results : list Row;
  count : Z;
}.

(** One invocation of [fetchData]: the parameters it built, whether it
    first loads the channel groups, and the values of its closure that
    the success path reads. *)
Record FetchCall := {
  fc_loadsGroups : bool;
  fc_params : Params;
  fc_pagination : Pagination;
  fc_initialDataCount : option Z;
}.

Record State := {
  allRowIds : list Z;
  data : list Row;
  pageCount : Z;
  paginationString : string;
  isLoading : bool;
  sorting : list SortEntry;
  pagination : Pagination;
  filters : Filters;
  debouncedFilters : Filters;
  groupsLoaded : bool;
  groupOptions : list string;
  initialDataCount : option Z;
  channelGroups : list (Z * string);
  debounceTimer : option (Timer Filters);
  fetchCalls : list FetchCall;
  console : list string;
}.

Definition initialFilters : Filters :=
  [("name", FStr ""); ("channel_group", FStr ""); ("m3u_account", FStr "")].

(** The [useState] initial values; the store's channel groups are given. *)
Definition initialState (groups : list (Z * string)) : State := {|
  allRowIds := [];
  data := [];
  pageCount := 0;
  paginationString := "";
  isLoading := true;
  sorting := [{| sort_id := "name"; sort_desc := DescEmptyStr |}];
  pagination := {| pageIndex := 0; pageSize := 50 |};
  filters := initialFilters;
  debouncedFilters := initialFilters;
  groupsLoaded := false;
  groupOptions := [];
  initialDataCount := None;
  channelGroups := groups;
  debounceTimer := None;
  fetchCalls := [];
  console := [];
|}.

(** *** State setters *)

Definition setAllRowIds (v : list Z) (s : State) : State :=
  {| allRowIds := v; data := data s; pageCount := pageCount s;
     paginationString := paginationString s; isLoading := isLoading s;
     sorting := sorting s; pagination := pagination s; filters := filters s;
     debouncedFilters := debouncedFilters s; groupsLoaded := groupsLoaded s;
     groupOptions := groupOptions s; initialDataCount := initialDataCount s;
     channelGroups := channelGroups s; debounceTimer := debounceTimer s;
     fetchCalls := fetchCalls s; console := console s |}.

Definition setData (v : list Row) (s : State) : State :=
  {| allRowIds := allRowIds s; data := v; pageCount := pageCount s;
     paginationString := paginationString s; isLoading := isLoading s;
     sorting := sorting s; pagination := pagination s; filters := filters s;
     debouncedFilters := debouncedFilters s; groupsLoaded := groupsLoaded s;
     groupOptions := groupOptions s; initialDataCount := initialDataCount s;
     channelGroups := channelGroups s; debounceTimer := debounceTimer s;
     fetchCalls := fetchCalls s; console := console s |}.

Definition setPageCount (v : Z) (s : State) : State :=
  {| allRowIds := allRowIds s; data := data s; pageCount := v;
     paginationString := paginationString s; isLoading := isLoading s;
     sorting := sorting s; pagination := pagination s; filters := filters s;
     debouncedFilters := debouncedFilters s; groupsLoaded := groupsLoaded s;
     groupOptions := groupOptions s; initialDataCount := initialDataCount s;
     channelGroups := channelGroups s; debounceTimer := debounceTimer s;
     fetchCalls := fetchCalls s; console := console s |}.

Definition setPaginationString (v : string) (s : State) : State :=
  {| allRowIds := allRowIds s; data := data s; pageCount := pageCount s;
     paginationString := v; isLoading := isLoading s;
     sorting := sorting s; pagination := pagination s; filters := filters s;
     debouncedFilters := debouncedFilters s; groupsLoaded := groupsLoaded s;
     groupOptions := groupOptions s; initialDataCount := initialDataCount s;
     channelGroups := channelGroups s; debounceTimer := debounceTimer s;
     fetchCalls := fetchCalls s; console := console s |}.

Definition setIsLoading (v : bool) (s : State) : State :=
  {| allRowIds := allRowIds s; data := data s; pageCount := pageCount s;
     paginationString := paginationString s; isLoading := v;
     sorting := sorting s; pagination := pagination s; filters := filters s;
     debouncedFilters := debouncedFilters s; groupsLoaded := groupsLoaded s;
     groupOptions := groupOptions s; initialDataCount := initialDataCount s;
     channelGroups := channelGroups s; debounceTimer := debounceTimer s;
     fetchCalls := fetchCalls s; console := console s |}.

Definition setSorting (v : list SortEntry) (s : State) : State :=
  {| allRowIds := allRowIds s; data := data s; pageCount := pageCount s;
     paginationString := paginationString s; isLoading := isLoading s;
     sorting := v; pagination := pagination s; filters := filters s;
     debouncedFilters := debouncedFilters s; groupsLoaded := groupsLoaded s;
     groupOptions := groupOptions s; initialDataCount := initialDataCount s;
     channelGroups := channelGroups s; debounceTimer := debounceTimer s;
     fetchCalls := fetchCalls s; console := console s |}.

Definition setPagination (v : Pagination) (s : State) : State :=
  {| allRowIds := allRowIds s; data := data s; pageCount := pageCount s;
     paginationString := paginationString s; isLoading := isLoading s;
     sorting := sorting s; pagination := v; filters := filters s;
     debouncedFilters := debouncedFilters s; groupsLoaded := groupsLoaded s;
     groupOptions := groupOptions s; initialDataCount := initialDataCount s;
     channelGroups := channelGroups s; debounceTimer := debounceTimer s;
     fetchCalls := fetchCalls s; console := console s |}.

Definition setFilters (v : Filters) (s : State) : State :=
  {| allRowIds := allRowIds s; data := data s; pageCount := pageCount s;
     paginationString := paginationString s; isLoading := isLoading s;
     sorting := sorting s; pagination := pagination s; filters := v;
     debouncedFilters := debouncedFilters s; groupsLoaded := groupsLoaded s;
     groupOptions := groupOptions s; initialDataCount := initialDataCount s;
     channelGroups := channelGroups s; debounceTimer := debounceTimer s;
     fetchCalls := fetchCalls s; console := console s |}.

Definition setDebouncedFilters (v : Filters) (s : State) : State :=
  {| allRowIds := allRowIds s; data := data s; pageCount := pageCount s;
     paginationString := paginationString s; isLoading := isLoading s;
     sorting := sorting s; pagination := pagination s; filters := filters s;
     debouncedFilters := v; groupsLoaded := groupsLoaded s;
     groupOptions := groupOptions s; initialDataCount := initialDataCount s;
     channelGroups := channelGroups s; debounceTimer := debounceTimer s;
     fetchCalls := fetchCalls s; console := console s |}.

Definition setGroupsLoaded (v : bool) (s : State) : State :=
  {| allRowIds := allRowIds s; data := data s; pageCount := pageCount s;
     paginationString := paginationString s; isLoading := isLoading s;
     sorting := sorting s; pagination := pagination s; filters := filters s;
     debouncedFilters := debouncedFilters s; groupsLoaded := v;
     groupOptions := groupOptions s; initialDataCount := initialDataCount s;
     channelGroups := channelGroups s; debounceTimer := debounceTimer s;
     fetchCalls := fetchCalls s; console := console s |}.

Definition setGroupOptions (v : list string) (s : State) : State :=
  {| allRowIds := allRowIds s; data := data s; pageCount := pageCount s;
     paginationString := paginationString s; isLoading := isLoading s;
     sorting := sorting s; pagination := pagination s; filters := filters s;
     debouncedFilters := debouncedFilters s; groupsLoaded := groupsLoaded s;
     groupOptions := v; initialDataCount := initialDataCount s;
     channelGroups := channelGroups s; debounceTimer := debounceTimer s;
     fetchCalls := fetchCalls s; console := console s |}.

Definition setInitialDataCount (v : option Z) (s : State) : State :=
  {| allRowIds := allRowIds s; data := data s; pageCount := pageCount s;
     paginationString := paginationString s; isLoading := isLoading s;
     sorting := sorting s; pagination := pagination s; filters := filters s;
     debouncedFilters := debouncedFilters s; groupsLoaded := groupsLoaded s;
     groupOptions := groupOptions s; initialDataCount := v;
     channelGroups := channelGroups s; debounceTimer := debounceTimer s;
     fetchCalls := fetchCalls s; console := console s |}.

(** The store replaced its channel-group table. *)
Definition setChannelGroups (v : list (Z * string)) (s : State) : State :=
  {| allRowIds := allRowIds s; data := data s; pageCount := pageCount s;
     paginationString := paginationString s; isLoading := isLoading s;
     sorting := sorting s; pagination := pagination s; filters := filters s;
     debouncedFilters := debouncedFilters s; groupsLoaded := groupsLoaded s;
     groupOptions := groupOptions s; initialDataCount := initialDataCount s;
     channelGroups := v; debounceTimer := debounceTimer s;
     fetchCalls := fetchCalls s; console := console s |}.

(** [clearTimeout] ([None]) and [setTimeout] ([Some]). *)
Definition setDebounceTimer (v : option (Timer Filters)) (s : State) : State :=
  {| allRowIds := allRowIds s; data := data s; pageCount := pageCount s;
     paginationString := paginationString s; isLoading := isLoading s;
     sorting := sorting s; pagination := pagination s; filters := filters s;
     debouncedFilters := debouncedFilters s; groupsLoaded := groupsLoaded s;
     groupOptions := groupOptions s; initialDataCount := initialDataCount s;
     channelGroups := channelGroups s; debounceTimer := v;
     fetchCalls := fetchCalls s; console := console s |}.

Definition pushFetchCall (c : FetchCall) (s : State) : State :=
  {| allRowIds := allRowIds s; data := data s; pageCount := pageCount s;
     paginationString := paginationString s; isLoading := isLoading s;
     sorting := sorting s; pagination := pagination s; filters := filters s;
     debouncedFilters := debouncedFilters s; groupsLoaded := groupsLoaded s;
     groupOptions := groupOptions s; initialDataCount := initialDataCount s;
     channelGroups := channelGroups s; debounceTimer := debounceTimer s;
     fetchCalls := fetchCalls s ++ [c]; console := console s |}.

(** [console.error(label, error)] *)
Definition consoleError (label error : string) (s : State) : State :=
  {| allRowIds := allRowIds s; data := data s; pageCount := pageCount s;
     paginationString := paginationString s; isLoading := isLoading s;
     sorting := sorting s; pagination := pagination s; filters := filters s;
     debouncedFilters := debouncedFilters s; groupsLoaded := groupsLoaded s;
     groupOptions := groupOptions s; initialDataCount := initialDataCount s;
     channelGroups := channelGroups s; debounceTimer := debounceTimer s;
     fetchCalls := fetchCalls s;
     console := console s ++ [label +:+ " " +:+ error] |}.

(** *** Sorting *)

(** The array [onSortingChange(column)] hands to [setSorting], computed
    from the current [sorting]. *)
Definition nextSorting (column : string) (srt : list SortEntry)
  : list SortEntry :=
  match srt with
  | e :: _ =>
      if String.eqb (sort_id e) column then
        if looseEqFalse (sort_desc e)
        then [{| sort_id := column; sort_desc := DescBool true |}]
        else []
      else [{| sort_id := column; sort_desc := DescBool false |}]
  | [] => [{| sort_id := column; sort_desc := DescBool false |}]
  end.

(** *** fetchData *)

Definition orderingParam (srt : list SortEntry) : Params :=
  match srt with
  | [] => []
  | e :: _ =>
      [("ordering",
        (if truthy (sort_desc e) then "-" else "") +:+ sort_id e)]
  end.

Definition filterParams (f : Filters) : Params :=
  flat_map (λ kv, if filterTruthy (snd kv)
                  then [(fst kv, filterToString (snd kv))] else []) f.

(** The [URLSearchParams] built by [fetchData]. *)
Definition fetchParams (p : Pagination) (srt : list SortEntry) (f : Filters)
  : Params :=
  [("page", pretty (pageIndex p + 1)); ("page_size", pretty (pageSize p))]
  ++ orderingParam srt ++ filterParams f.

(** [Object.keys(channelGroups).length === 0] *)
Definition noChannelGroups (s : State) : bool :=
  match channelGroups s with [] => true | _ => false end.

(** What a call of [fetchData] works with: everything it reads comes
    from the closure created by the render [s], so the parameters are
    fixed when the call starts, also when it first awaits the channel
    groups. *)
Definition callOf (s : State) : FetchCall :=
  {| fc_loadsGroups := negb (groupsLoaded s) && noChannelGroups s;
     fc_params := fetchParams (pagination s) (sorting s) (debouncedFilters s);
     fc_pagination := pagination s;
     fc_initialDataCount := initialDataCount s |}.

(** The synchronous part of [fetchData]: the loading flag goes up and the
    call is recorded.  Its requests ([queryStreams] and [getAllStreamIds]
    with [fc_params], and [getStreamGroups]) settle later, see
    [fetchSucceeded] and [fetchFailed]. *)
Definition fetchData (s : State) : State :=
  pushFetchCall (callOf s) (setIsLoading true s).

(** The values [fetchData] is memoised on.  [useEffect(.., [fetchData])]
    calls it again after a render in which one of them was replaced; the
    handlers below that replace one end in [fetchData] for that reason. *)
Definition fetchDataDeps (s : State)
  : Pagination * list SortEntry * Filters * bool * list (Z * string) :=
  (pagination s, sorting s, debouncedFilters s, groupsLoaded s,
   channelGroups s).

(** [Math.ceil(a / b)] for an integer count and a positive integer page
    size. *)
Definition ceilDiv (a b : Z) : Z := - ((- a) / b).

Definition startItem (p : Pagination) : Z := pageIndex p * pageSize p + 1.

Definition endItem (p : Pagination) (cnt : Z) : Z :=
  Z.min ((pageIndex p + 1) * pageSize p) cnt.

Definition rangeString (p : Pagination) (cnt : Z) : string :=
  pretty (startItem p) +:+ " to " +:+ pretty (endItem p cnt)
  +:+ " of " +:+ pretty cnt.

(** [Promise.all] resolved for the call [c]. *)
Definition fetchSucceeded (c : FetchCall) (result : QueryResult)
    (ids : list Z) (groups : list string) (s : State) : State :=
  let s := setAllRowIds ids s in
  let s := setData (results result) s in
  let s := setPageCount
             (ceilDiv (count result) (pageSize (fc_pagination c))) s in
  let s := setGroupOptions groups s in
  let s := match fc_initialDataCount c with
           | None => setInitialDataCount (Some (count result)) s
           | Some _ => s
           end in
  let s := setPaginationString
             (rangeString (fc_pagination c) (count result)) s in
  setIsLoading false s.

(** [Promise.all] rejected for the call [c]: the [catch] block, then the
    statement after it. *)
Definition fetchFailed (c : FetchCall) (error : string) (s : State) : State :=
  setIsLoading false (consoleError "Error fetching data:" error s).

(** [fetchChannelGroups] settled, for a call with [fc_loadsGroups]. *)
Definition groupsFetchSucceeded (s : State) : State :=
  if groupsLoaded s then s else fetchData (setGroupsLoaded true s).

Definition groupsFetchFailed (error : string) (s : State) : State :=
  consoleError "Error fetching channel groups:" error s.

(** The store hands the component a new channel-group table. *)
Definition channelGroupsChanged (groups : list (Z * string)) (s : State)
  : State :=
  fetchData (setChannelGroups groups s).

(** The component mounts: the effect runs [fetchData] once. *)
Definition mount (groups : list (Z * string)) : State :=
  fetchData (initialState groups).

(** *** Pagination and sorting handlers *)

Definition onPageSizeChange (value : Z) (s : State) : State :=
  fetchData
    (setPagination
       {| pageIndex := pageIndex (pagination s); pageSize := value |} s).

Definition onPageIndexChange (page : Z) (s : State) : State :=
  if (page =? 0) || (pageCount s <? page) then s
  else fetchData
         (setPagination
            {| pageIndex := page - 1; pageSize := pageSize (pagination s) |}
            s).

Definition onSortingChange (column : string) (s : State) : State :=
  fetchData (setSorting (nextSorting column (sorting s)) s).

(** *** Filters and their debounce *)

(** The three ways the header edits a filter. *)
Inductive FilterEdit :=
  | InputChange (name value : string)
  | GroupChange (value : option (list string))
  | M3UChange (value : option string).

(** The object each edit passes to [setFilters]. *)
Definition editedFilters (e : FilterEdit) (prev : Filters) : Filters :=
  match e with
  | InputChange name value => objSet name (FStr value) prev
  | GroupChange value =>
      objSet "channel_group"
        (match value with Some l => FArr l | None => FStr "" end) prev
  | M3UChange value =>
      objSet "m3u_account" (FStr (default "" value)) prev
  end.

(** Modelled from the spec: [useDebounce] of utils.js, which the sources
    do not include.  A new value of [filters] cancels the pending timer
    and arms one for the quiet period, which captures that value. *)
Definition stageFilters (now : Z) (f : Filters) (s : State) : State :=
  setDebounceTimer (Some (now + debounceDelay, f)) (setFilters f s).

(** The callback [StreamsTable] gives to [useDebounce]. *)
Definition resetPage (s : State) : State :=
  setPagination
    {| pageIndex := 0; pageSize := pageSize (pagination s) |} s.

(** Modelled from the spec: the timer callback of [useDebounce], which
    the sources do not include.  It commits the captured value and runs
    the component's callback in one update; the render that follows
    calls the new [fetchData]. *)
Definition debounceFire (f : Filters) (s : State) : State :=
  fetchData (resetPage (setDebouncedFilters f (setDebounceTimer None s))).

Definition handleFilterChange (now : Z) (name value : string) (s : State)
  : State :=
  stageFilters now (editedFilters (InputChange name value) (filters s)) s.

Definition handleGroupChange (now : Z) (value : option (list string))
    (s : State) : State :=
  stageFilters now (editedFilters (GroupChange value) (filters s)) s.

Definition handleM3UChange (now : Z) (value : option string) (s : State)
  : State :=
  stageFilters now (editedFilters (M3UChange value) (filters s)) s.

Definition handleEdit (now : Z) (e : FilterEdit) (s : State) : State :=
  match e with
  | InputChange name value => handleFilterChange now name value s
  | GroupChange value => handleGroupChange now value s
  | M3UChange value => handleM3UChange now value s
  end.

(** The clock reaches [now]. *)
Definition advance : Z → State → State :=
  EventLoop.advance debounceTimer debounceFire.

(** Filter edits at their times, the timer running when due. *)
Definition run : list (Z * FilterEdit) → State → State :=
  EventLoop.run debounceTimer debounceFire handleEdit.

(** The filter object after a list of edits. *)
Definition editAll (evs : list (Z * FilterEdit)) (f : Filters) : Filters :=
  fold_left (λ acc te, editedFilters (snd te) acc) evs f.

(** *** The sort direction a state stands for

    [DirNone] when no entry is active; otherwise the direction the fetch
    asks the server for. *)
Inductive Direction := DirNone | DirAsc | DirDesc.

Definition direction (srt : list SortEntry) : Direction :=
  match srt with
  | [] => DirNone
  | e :: _ => if truthy (sort_desc e) then DirDesc else DirAsc
  end.

Definition sortField (srt : list SortEntry) : option string :=
  sort_id <$> head srt.

(** The documented cycle. *)
Definition cycle (d : Direction) : Direction :=
  match d with
  | DirNone => DirAsc
  | DirAsc => DirDesc
  | DirDesc => DirNone
  end.

(** What the display shows of the last successful fetch. *)
Definition snapshot (s : State)
  : list Row * list Z * Z * string * list string * option Z :=
  (data s, allRowIds s, pageCount s, paginationString s, groupOptions s,
   initialDataCount s).

(** *** A sample burst: the name filter typed in three steps, 100 ms
    apart. *)
Definition typingFoxtrot : list (Z * FilterEdit) :=
  [(0, InputChange "name" "fo"); (100, InputChange "name" "fox");
   (200, InputChange "name" "foxtrot")].

(** *** A sample state: page 3 of 120 rows, 50 to a page, sorted on
    [name] descending and filtered on the name. *)
Definition page3 : State :=
  let fox :=
    [("name", FStr "fox"); ("channel_group", FStr "");
     ("m3u_account", FStr "")] in
  setDebouncedFilters fox
    (setFilters fox
       (setSorting [{| sort_id := "name"; sort_desc := DescBool true |}]
          (setPagination {| pageIndex := 2; pageSize := 50 |}
             (setPageCount 3 (initialState []))))).

(** *** The header of the name column *)

Inductive SortIcon := ArrowUpDown | ArrowUpNarrowWide | ArrowDownWideNarrow.

(** [d === false] *)
Definition strictEqFalse (d : DescVal) : bool :=
  match d with
  | DescBool false => true
  | _ => false
  end.

(** The icon [renderHeaderCell] picks for the header [headerId]. *)
Definition sortingIcon (headerId : string) (srt : list SortEntry) : SortIcon :=
  match srt with
  | e :: _ =>
      if String.eqb (sort_id e) headerId then
        if strictEqFalse (sort_desc e) then ArrowUpNarrowWide
        else ArrowDownWideNarrow
      else ArrowUpDown
  | [] => ArrowUpDown
  end.

(** [filters[key]] *)
Fixpoint objGet (key : string) (o : Filters) : option FilterVal :=
  match o with
  | [] => None
  | (k, v) :: rest => if String.eqb k key then Some v else objGet key rest
  end.

(** [Object.keys(o)] *)
Definition objKeys (o : Filters) : list string := fst <$> o.

(** *** Adding streams to the selected channel *)

(** A channel of the channels-table store. *)
Record Channel := {
  chan_id : Z;
  chan_streams : list Row;
}.

(** [state.channels.find((chan) => chan.id === selectedChannelIds[0])
    ?.streams], [None] for [undefined]. *)
Definition channelSelectionStreams (channels : list Channel)
    (selectedChannelIds : list Z) : option (list Row) :=
  match selectedChannelIds with
  | [] => None
  | cid :: _ => chan_streams <$> List.find (λ c, chan_id c =? cid) channels
  end.

(** The elements a [Set] holds after the values of [l] were added to
    those of [acc], in insertion order. *)
Fixpoint setAddAll (acc l : list Z) : list Z :=
  match l with
  | [] => acc
  | x :: rest =>
      setAddAll (if bool_decide (x ∈ acc) then acc else acc ++ [x]) rest
  end.

(** [[...new Set(l)]] *)
Definition newSet (l : list Z) : list Z := setAddAll [] l.

(** The argument of [API.updateChannel]. *)
Record ChannelUpdate := {
  cu_id : option Z;
  cu_streams : list Z;
}.

(** [disabled] of the Add to Channel icon of a row. *)
Definition addToChannelDisabled (selectedChannelIds : list Z)
    (selection : option (list Row)) (rowId : Z) : bool :=
  negb (length selectedChannelIds =? 1)%nat
  || match selection with
     | Some streams => bool_decide (rowId ∈ row_id <$> streams)
     | None => false
     end.

(** [addStreamToChannel] of a row: the update it sends, [None] when
    [channelSelectionStreams.map] throws on [undefined]. *)
Definition addStreamToChannel (selectedChannelIds : list Z)
    (selection : option (list Row)) (rowId : Z) : option ChannelUpdate :=
  match selection with
  | None => None
  | Some streams =>
      Some {| cu_id := head selectedChannelIds;
              cu_streams := newSet ((row_id <$> streams) ++ [rowId]) |}
  end.

(** [disabled] of the Add Streams to Channel button. *)
Definition addStreamsDisabled (selectedStreamIds selectedChannelIds : list Z)
  : bool :=
  negb ((0 <? length selectedStreamIds)%nat
        && (length selectedChannelIds =? 1)%nat).

(** [addStreamsToChannel] of the table, for the selected rows. *)
Definition addStreamsToChannel (selectedChannelIds : list Z)
    (selection : option (list Row)) (selectedStreamIds : list Z)
  : option ChannelUpdate :=
  match selection with
  | None => None
  | Some streams =>
      Some {| cu_id := head selectedChannelIds;
              cu_streams :=
                newSet ((row_id <$> streams) ++ selectedStreamIds) |}
  end.

(** The key an edit writes and the value it writes there. *)
Definition editKey (e : FilterEdit) : string :=
  match e with
  | InputChange name _ => name
  | GroupChange _ => "channel_group"
  | M3UChange _ => "m3u_account"
  end.

Definition editValue (e : FilterEdit) : FilterVal :=
  match e with
  | InputChange _ value => FStr value
  | GroupChange value =>
      match value with Some l => FArr l | None => FStr "" end
  | M3UChange value => FStr (default "" value)
  end.

(** *** Everything that happens to the table

    [closeStreamForm] resets the two cells of the stream form, which are
    not part of this state, and calls [fetchData].  [EvBulk] stands for
    the two ends of [createChannelsFromStreams] and [deleteStreams],
    which raise and clear the loading flag around their call; the other
    handlers of the component (selection, the stream form, the video
    preview) write cells that are not part of this state. *)
Definition closeStreamForm (s : State) : State := fetchData s.

Inductive TableEvent :=
  | EvFilterEdit (now : Z) (e : FilterEdit)
  | EvClock (now : Z)
  | EvSort (column : string)
  | EvPageIndex (page : Z)
  | EvPageSize (value : Z)
  | EvCloseForm
  | EvFetchSucceeded (c : FetchCall) (result : QueryResult) (ids : list Z)
      (groups : list string)
  | EvFetchFailed (c : FetchCall) (error : string)
  | EvGroupsLoaded
  | EvGroupsFailed (error : string)
  | EvChannelGroups (groups : list (Z * string))
  | EvBulk (loading : bool).

Definition tableStep (ev : TableEvent) (s : State) : State :=
  match ev with
  | EvFilterEdit now e => handleEdit now e s
  | EvClock now => advance now s
  | EvSort column => onSortingChange column s
  | EvPageIndex page => onPageIndexChange page s
  | EvPageSize value => onPageSizeChange value s
  | EvCloseForm => closeStreamForm s
  | EvFetchSucceeded c result ids groups =>
      fetchSucceeded c result ids groups s
  | EvFetchFailed c error => fetchFailed c error s
  | EvGroupsLoaded => groupsFetchSucceeded s
  | EvGroupsFailed error => groupsFetchFailed error s
  | EvChannelGroups groups => channelGroupsChanged groups s
  | EvBulk loading => setIsLoading loading s
  end.

Definition tableSteps (evs : list TableEvent) (s : State) : State :=
  fold_left (λ acc ev, tableStep ev acc) evs s.

(** The debounce timer is armed and due. *)
Definition timerDue (now : Z) (s : State) : bool :=
  match debounceTimer s with
  | Some (deadline, _) => deadline <=? now
  | None => false
  end.

(** The events that call [fetchData]: the commit of a filter edit, a
    sort click, a change to a page there is, a change of the page size,
    the closing of the stream form, the first notice that the groups are
    loaded, and a new channel-group table from the store. *)
Definition startsFetch (ev : TableEvent) (s : State) : bool :=
  match ev with
  | EvClock now => timerDue now s
  | EvSort _ | EvPageSize _ | EvCloseForm | EvChannelGroups _ => true
  | EvPageIndex page => negb ((page =? 0) || (pageCount s <? page))
  | EvGroupsLoaded => negb (groupsLoaded s)
  | EvFilterEdit _ _ | EvFetchSucceeded _ _ _ _ | EvFetchFailed _ _
  | EvGroupsFailed _ | EvBulk _ => false
  end.

(** The events that never call [fetchData]: typing into a filter, the
    results of fetches, a failed load of the groups and the bulk
    actions. *)
Definition neverFetches (ev : TableEvent) : bool :=
  match ev with
  | EvFilterEdit _ _ | EvFetchSucceeded _ _ _ _ | EvFetchFailed _ _
  | EvGroupsFailed _ | EvBulk _ => true
  | _ => false
  end.

(** The events that leave the groups-loaded flag and the store's channel
    groups alone: all but the end of the group load and a new table from
    the store. *)
Definition keepsGroups (ev : TableEvent) : bool :=
  match ev with
  | EvGroupsLoaded | EvChannelGroups _ => false
  | _ => true
  end.

End StreamsTable.

(** ** M3UProfile: the live regex preview *)
Module M3UProfile.

(** The two patterns under edit; [debouncedPatterns] holds a committed
    copy.  Its initial [{}] reads as two empty strings through
    [debouncedPatterns['search'] || '']. *)
Record Patterns := {
  search : string;
  replace : string;
}.

(** The [m3u_profile_test] message sent over the websocket. *)
Record Message := {
  msg_url : string;
  msg_search : string;
  msg_replace : string;
}.

Record State := {
  streamUrl : string;
  searchPattern : string;
  replacePattern : string;
  debouncedPatterns : Patterns;
  sampleInput : string;
  websocketReady : bool;
  patternTimer : option (Timer Patterns);
  sent : list Message;
}.

Definition setSearchPattern (v : string) (s : State) : State :=
  {| streamUrl := streamUrl s; searchPattern := v;
     replacePattern := replacePattern s;
     debouncedPatterns := debouncedPatterns s; sampleInput := sampleInput s;
     websocketReady := websocketReady s; patternTimer := patternTimer s;
     sent := sent s |}.

Definition setReplacePattern (v : string) (s : State) : State :=
  {| streamUrl := streamUrl s; searchPattern := searchPattern s;
     replacePattern := v;
     debouncedPatterns := debouncedPatterns s; sampleInput := sampleInput s;
     websocketReady := websocketReady s; patternTimer := patternTimer s;
     sent := sent s |}.

Definition setDebouncedPatterns (v : Patterns) (s : State) : State :=
  {| streamUrl := streamUrl s; searchPattern := searchPattern s;
     replacePattern := replacePattern s;
     debouncedPatterns := v; sampleInput := sampleInput s;
     websocketReady := websocketReady s; patternTimer := patternTimer s;
     sent := sent s |}.

Definition setSampleInput (v : string) (s : State) : State :=
  {| streamUrl := streamUrl s; searchPattern := searchPattern s;
     replacePattern := replacePattern s;
     debouncedPatterns := debouncedPatterns s; sampleInput := v;
     websocketReady := websocketReady s; patternTimer := patternTimer s;
     sent := sent s |}.

Definition setPatternTimer (v : option (Timer Patterns)) (s : State) : State :=
  {| streamUrl := streamUrl s; searchPattern := searchPattern s;
     replacePattern := replacePattern s;
     debouncedPatterns := debouncedPatterns s; sampleInput := sampleInput s;
     websocketReady := websocketReady s; patternTimer := v;
     sent := sent s |}.

Definition sendMessage (m : Message) (s : State) : State :=
  {| streamUrl := streamUrl s; searchPattern := searchPattern s;
     replacePattern := replacePattern s;
     debouncedPatterns := debouncedPatterns s; sampleInput := sampleInput s;
     websocketReady := websocketReady s; patternTimer := patternTimer s;
     sent := sent s ++ [m] |}.

(** [a || b] on strings *)
Definition orElse (a b : string) : string :=
  if String.eqb a "" then b else a.

(** The effect on [websocketReady, m3u, debouncedPatterns, streamUrl,
    sampleInput]: the preview request, when the socket is up and a stream
    URL is known. *)
Definition previewEffect (s : State) : State :=
  if negb (websocketReady s) || String.eqb (streamUrl s) "" then s
  else sendMessage
         {| msg_url := orElse (sampleInput s) (streamUrl s);
            msg_search := orElse (search (debouncedPatterns s)) "";
            msg_replace := orElse (replace (debouncedPatterns s)) "" |} s.

(** The effect on [searchPattern, replacePattern]: its cleanup clears the
    timer of the previous run, its body arms a new one that captures the
    two patterns. *)
Definition patternsEffect (now : Z) (s : State) : State :=
  setPatternTimer
    (Some (now + debounceDelay,
           {| search := searchPattern s; replace := replacePattern s |})) s.

(** The timer's callback.  [setDebouncedPatterns] gets a fresh object, so
    the preview effect runs after it. *)
Definition patternTimerFire (p : Patterns) (s : State) : State :=
  previewEffect (setDebouncedPatterns p (setPatternTimer None s)).

(** Setting a state cell to the string it already holds renders nothing
    and re-runs no effect. *)
Definition onSearchPatternUpdate (now : Z) (value : string) (s : State)
  : State :=
  if String.eqb value (searchPattern s) then s
  else patternsEffect now (setSearchPattern value s).

Definition onReplacePatternUpdate (now : Z) (value : string) (s : State)
  : State :=
  if String.eqb value (replacePattern s) then s
  else patternsEffect now (setReplacePattern value s).

Definition handleSampleInputChange (value : string) (s : State) : State :=
  if String.eqb value (sampleInput s) then s
  else previewEffect (setSampleInput value s).

Inductive PatternEdit :=
  | SearchEdit (value : string)
  | ReplaceEdit (value : string).

Definition handleEdit (now : Z) (e : PatternEdit) (s : State) : State :=
  match e with
  | SearchEdit v => onSearchPatternUpdate now v s
  | ReplaceEdit v => onReplacePatternUpdate now v s
  end.

Definition advance : Z → State → State :=
  EventLoop.advance patternTimer patternTimerFire.

Definition run : list (Z * PatternEdit) → State → State :=
  EventLoop.run patternTimer patternTimerFire handleEdit.

(** The patterns after a list of edits. *)
Definition editedPatterns (e : PatternEdit) (p : Patterns) : Patterns :=
  match e with
  | SearchEdit v => {| search := v; replace := replace p |}
  | ReplaceEdit v => {| search := search p; replace := v |}
  end.

Definition editAll (evs : list (Z * PatternEdit)) (p : Patterns) : Patterns :=
  fold_left (λ acc te, editedPatterns (snd te) acc) evs p.

(** Every edit of the list changes the pattern it edits, as the change
    event of an input does. *)
Fixpoint allChange (evs : list (Z * PatternEdit)) (p : Patterns) : bool :=
  match evs with
  | [] => true
  | (_, e) :: rest =>
      negb (match e with
            | SearchEdit v => String.eqb v (search p)
            | ReplaceEdit v => String.eqb v (replace p)
            end)
      && allChange rest (editedPatterns e p)
  end.

(** A form with a stream URL, the socket up, nothing typed yet; and a
    burst of three edits of its patterns. *)
Definition blankForm : State :=
  {| streamUrl := "http://host/live/1.ts"; searchPattern := "";
     replacePattern := "";
     debouncedPatterns := {| search := ""; replace := "" |};
     sampleInput := "http://host/live/1.ts"; websocketReady := true;
     patternTimer := None; sent := [] |}.

Definition typingPatterns : list (Z * PatternEdit) :=
  [(0, SearchEdit "live"); (150, ReplaceEdit "vod");
   (400, SearchEdit "live/")].

Definition currentPatterns (s : State) : Patterns :=
  {| search := searchPattern s; replace := replacePattern s |}.

(** The state in which the patterns [p] are under edit, their timer armed
    at time [t]. *)
Definition staged (t : Z) (p : Patterns) (s : State) : State :=
  setPatternTimer (Some (t + debounceDelay, p))
    (setReplacePattern (replace p) (setSearchPattern (search p) s)).

(** Whether the edit changes the pattern it edits. *)
Definition changes (e : PatternEdit) (p : Patterns) : bool :=
  negb (match e with
        | SearchEdit v => String.eqb v (search p)
        | ReplaceEdit v => String.eqb v (replace p)
        end).

(** The preview request for committed patterns [p]. *)
Definition previewOf (p : Patterns) (s : State) : list Message :=
  if negb (websocketReady s) || String.eqb (streamUrl s) "" then []
  else [{| msg_url := orElse (sampleInput s) (streamUrl s);
           msg_search := orElse (search p) "";
           msg_replace := orElse (replace p) "" |}].

(** *** Local regex testing

    The regular-expression engine belongs to the JavaScript runtime: the
    section takes it as given.  [compile] is [new RegExp(pattern, 'g')],
    [None] when the constructor throws; the two [replace] functions are
    [String.prototype.replace] with a replacer function and with a
    replacement string. *)
Section LocalRegex.
Variable Regex : Type.
Variable compile : string → option Regex.
Variable replaceWith : Regex → (string → string) → string → string.
Variable replaceBy : Regex → string → string → string.

Definition dquote : string := String (Ascii.ascii_of_nat 34) "".

(** The replacer of the highlight: the match inside a [mark] element. *)
Definition highlight (m : string) : string :=
  "<mark style=" +:+ dquote +:+ "background-color: #ffee58;" +:+ dquote
  +:+ ">" +:+ m +:+ "</mark>".

Definition getHighlightedSearchText (s : State) : string :=
  if String.eqb (searchPattern s) "" || String.eqb (sampleInput s) ""
  then sampleInput s
  else match compile (searchPattern s) with
       | Some regex => replaceWith regex highlight (sampleInput s)
       | None => sampleInput s
       end.

Definition getLocalReplaceResult (s : State) : string :=
  if String.eqb (searchPattern s) "" || String.eqb (sampleInput s) ""
  then sampleInput s
  else match compile (searchPattern s) with
       | Some regex => replaceBy regex (replacePattern s) (sampleInput s)
       | None => sampleInput s
       end.
End LocalRegex.

(** A small engine to run the two functions on: a pattern is a literal
    text, except that one holding an opening bracket does not compile
    (an unterminated character class), and a match is replaced where the
    input starts with the pattern. *)
Fixpoint hasBracket (p : string) : bool :=
  match p with
  | EmptyString => false
  | String c rest => Ascii.eqb c (Ascii.ascii_of_nat 91) || hasBracket rest
  end.

Definition literalCompile (p : string) : option string :=
  if hasBracket p then None else Some p.

Definition dropPrefix (p input : string) : option string :=
  if String.prefix p input
  then Some (String.substring (String.length p)
               (String.length input - String.length p) input)
  else None.

Definition literalReplaceWith (p : string) (f : string → string)
    (input : string) : string :=
  match dropPrefix p input with
  | Some rest => f p +:+ rest
  | None => input
  end.

Definition literalReplaceBy (p r input : string) : string :=
  literalReplaceWith p (λ _, r) input.

(** *** The other events of the form *)

Definition setStreamUrl (v : string) (s : State) : State :=
  {| streamUrl := v; searchPattern := searchPattern s;
     replacePattern := replacePattern s;
     debouncedPatterns := debouncedPatterns s; sampleInput := sampleInput s;
     websocketReady := websocketReady s; patternTimer := patternTimer s;
     sent := sent s |}.

Definition setWebsocketReady (v : bool) (s : State) : State :=
  {| streamUrl := streamUrl s; searchPattern := searchPattern s;
     replacePattern := replacePattern s;
     debouncedPatterns := debouncedPatterns s; sampleInput := sampleInput s;
     websocketReady := v; patternTimer := patternTimer s;
     sent := sent s |}.

(** [fetchStreamUrl] got the URLs of the first page of the account's
    streams: the first one becomes the stream URL and the sample.  Both
    cells are set in one update; the preview effect runs when one of them
    changed. *)
Definition streamUrlLoaded (urls : list string) (s : State) : State :=
  match urls with
  | [] => s
  | url :: _ =>
      if String.eqb url (streamUrl s) && String.eqb url (sampleInput s)
      then s
      else previewEffect (setSampleInput url (setStreamUrl url s))
  end.

(** The readiness flag of [useWebSocket] takes a new value. *)
Definition socketChanged (ready : bool) (s : State) : State :=
  if Bool.eqb ready (websocketReady s) then s
  else previewEffect (setWebsocketReady ready s).

Inductive Event :=
  | EvEdit (now : Z) (e : PatternEdit)
  | EvClock (now : Z)
  | EvSample (value : string)
  | EvStreamUrl (urls : list string)
  | EvSocket (ready : bool).

Definition step (ev : Event) (s : State) : State :=
  match ev with
  | EvEdit now e => handleEdit now e (advance now s)
  | EvClock now => advance now s
  | EvSample value => handleSampleInputChange value s
  | EvStreamUrl urls => streamUrlLoaded urls s
  | EvSocket ready => socketChanged ready s
  end.

Definition steps (evs : list Event) (s : State) : State :=
  fold_left (λ acc ev, step ev acc) evs s.

(** Events following an event at time [t], each at least a quiet period
    after the one before it. *)
Fixpoint spacedFrom {Ev : Type} (t : Z) (evs : list (Z * Ev)) : bool :=
  match evs with
  | [] => true
  | (t', _) :: rest => (t + debounceDelay <=? t') && spacedFrom t' rest
  end.

(** The patterns after each edit of a list. *)
Fixpoint patternsAfterEach (evs : list (Z * PatternEdit)) (p : Patterns)
  : list Patterns :=
  match evs with
  | [] => []
  | (_, e) :: rest =>
      editedPatterns e p :: patternsAfterEach rest (editedPatterns e p)
  end.

End M3UProfile.

(** ** ChannelStreams: drag-and-drop reordering *)
Module ChannelStreams.

(** [Array.prototype.indexOf] on identifiers, -1 when absent. *)
Fixpoint indexOf (x : Z) (l : list Z) : Z :=
  match l with
  | [] => -1
  | y :: rest =>
      if x =? y then 0
      else let i := indexOf x rest in if i <? 0 then -1 else i + 1
  end.

(** Where [splice] starts for a given [start] argument: counted from the
    end when negative, clamped to the array. *)
Definition spliceStart (len start : Z) : Z :=
  if start <? 0 then Z.max (len + start) 0 else Z.min start len.

(** [arrayMove] of dnd-kit:
    [newArray.splice(to < 0 ? newArray.length + to : to, 0,
                     newArray.splice(from, 1)[0])]
    on a copy of the array.  The first argument is evaluated before the
    inner [splice] shortens the copy.  [None] stands for the array with
    an [undefined] slot that results when nothing was removed; reading
    the [id] of that slot throws. *)
Definition arrayMove {A : Type} (array : list A) (from to : Z)
  : option (list A) :=
  let len := Z.of_nat (length array) in
  let target := if to <? 0 then len + to else to in
  let i := Z.to_nat (spliceStart len from) in
  match array !! i with
  | None => None
  | Some x =>
      let rest := delete i array in
      let j := Z.to_nat (spliceStart (Z.of_nat (length rest)) target) in
      Some (take j rest ++ x :: drop j rest)
  end.

(** The event dnd-kit hands to [onDragEnd]. *)
Record DragEndEvent := {
  ev_active : option Z;
  ev_over : option Z;
}.

Record State := {
  user_level : Z;
  data : list Row;
  active : option Z;
  updateCalls : list (list Z);
  inFlight : nat;
  requeries : nat;
}.

Definition setData (v : list Row) (s : State) : State :=
  {| user_level := user_level s; data := v; active := active s;
     updateCalls := updateCalls s; inFlight := inFlight s;
     requeries := requeries s |}.

Definition setActive (v : option Z) (s : State) : State :=
  {| user_level := user_level s; data := data s; active := v;
     updateCalls := updateCalls s; inFlight := inFlight s;
     requeries := requeries s |}.

(** [API.updateChannel({...channelUpdate, streams})] is issued. *)
Definition updateChannel (streams : list Z) (s : State) : State :=
  {| user_level := user_level s; data := data s; active := active s;
     updateCalls := updateCalls s ++ [streams];
     inFlight := S (inFlight s); requeries := requeries s |}.

Definition settle (requery : bool) (s : State) : State :=
  {| user_level := user_level s; data := data s; active := active s;
     updateCalls := updateCalls s; inFlight := pred (inFlight s);
     requeries := if requery then S (requeries s) else requeries s |}.

Definition dataIds (s : State) : list Z := row_id <$> data s.

Section Privilege.
(** [USER_LEVELS.ADMIN] of constants.js. *)
Variable ADMIN : Z.

Definition handleDragEnd (event : DragEndEvent) (s : State) : State :=
  if negb (user_level s =? ADMIN) then s
  else
    match ev_active event, ev_over event with
    | Some a, Some o =>
        if a =? o then s
        else
          let oldIndex := indexOf a (dataIds s) in
          let newIndex := indexOf o (dataIds s) in
          match arrayMove (data s) oldIndex newIndex with
          | Some retval =>
              setData retval (updateChannel (row_id <$> retval) s)
          | None => s
          end
    | _, _ => s
    end.

(** The drag handle of a row is pressed: [useDraggable] and the sensors
    of the [DndContext] are set up for every user, and one gesture is
    tracked at a time. *)
Definition grab (rowId : Z) (s : State) : State :=
  match active s with
  | Some _ => s
  | None => setActive (Some rowId) s
  end.

(** The gesture is abandoned (Escape, pointer cancel): the session ends,
    and the component has no handler for it. *)
Definition cancel (s : State) : State := setActive None s.

(** The row is released over [over]: the session ends and [onDragEnd]
    runs with it. *)
Definition dropOn (over : option Z) (s : State) : State :=
  match active s with
  | None => s
  | Some a =>
      handleDragEnd {| ev_active := Some a; ev_over := over |}
        (setActive None s)
  end.

(** The promise of [API.updateChannel] resolved: [requeryChannels]. *)
Definition updateSucceeded (s : State) : State := settle true s.

(** The promise rejected: the call has no rejection handler. *)
Definition updateFailed (s : State) : State := settle false s.

(** The effect on [channelStreams]: the store's list replaces the local
    one. *)
Definition storeChanged (channelStreams : list Row) (s : State) : State :=
  setData channelStreams s.

Inductive Gesture :=
  | GrabRow (rowId : Z)
  | DropOver (over : option Z)
  | CancelDrag.

Definition gesture (g : Gesture) (s : State) : State :=
  match g with
  | GrabRow rowId => grab rowId s
  | DropOver over => dropOn over s
  | CancelDrag => cancel s
  end.

Definition gestures (gs : list Gesture) (s : State) : State :=
  fold_left (λ acc g, gesture g acc) gs s.
End Privilege.

(** The three states of the reorder coordinator, read off the component:
    a gesture is tracked, or a persist call is in flight, or neither. *)
Inductive Phase := Idle | Dragging | Committing.

Definition phase (s : State) : Phase :=
  match active s with
  | Some _ => Dragging
  | None => match inFlight s with O => Idle | S _ => Committing end
  end.

(** *** The reorder in the words of the specification: one removal, then
    one insertion. *)
Definition removeAt {A : Type} (i : nat) (l : list A) : list A :=
  take i l ++ drop (S i) l.

Definition insertAt {A : Type} (j : nat) (x : A) (l : list A) : list A :=
  take j l ++ x :: drop j l.

Definition position (x : Z) (l : list Z) : option nat :=
  fst <$> list_find (λ y, y = x) l.

(** Four rows, and the component at rest in front of a user of a given
    level. *)
Definition rowA : Row :=
  {| row_id := 1; row_name := "A"; row_m3u_account := 1 |}.
Definition rowB : Row :=
  {| row_id := 2; row_name := "B"; row_m3u_account := 1 |}.
Definition rowC : Row :=
  {| row_id := 3; row_name := "C"; row_m3u_account := 1 |}.
Definition rowD : Row :=
  {| row_id := 4; row_name := "D"; row_m3u_account := 1 |}.

Definition idle (level : Z) (rows : list Row) : State :=
  {| user_level := level; data := rows; active := None;
     updateCalls := []; inFlight := 0; requeries := 0 |}.

(** [removeStream(stream)]: the streams of the channel without the one
    removed are sent to [API.updateChannel]; the local list is left to the
    requery that follows the call. *)
Definition removeStream (stream : Row) (s : State) : State :=
  let newStreamList :=
    List.filter (λ r, negb (row_id r =? row_id stream)) (data s) in
  updateChannel (row_id <$> newStreamList) s.

End ChannelStreams.

(** ** App: routes and the authentication check *)
Module App.

Definition defaultRoute : string := "/channels".

Inductive Page :=
  | Channels | ContentSources | Guide | DVR | Stats | Users | Settings
  | Login.

(** What a route renders: a page, or a redirect. *)
Inductive Element :=
  | ShowPage (page : Page)
  | Navigate (to : string).

(** The routes registered under [Routes], without the catch-all. *)
Definition pageRoutes (isAuthenticated : bool) : list (string * Element) :=
  if isAuthenticated then
    [("/channels", ShowPage Channels); ("/sources", ShowPage ContentSources);
     ("/guide", ShowPage Guide); ("/dvr", ShowPage DVR);
     ("/stats", ShowPage Stats); ("/users", ShowPage Users);
     ("/settings", ShowPage Settings)]
  else [("/login", ShowPage Login)].

(** The element of the catch-all route [*]. *)
Definition fallback (isAuthenticated : bool) : Element :=
  Navigate (if isAuthenticated then defaultRoute else "/login").

Section Router.
(** How the router matches a location against the path of a route is the
    router's business: it is taken as given.  A route with a path is
    preferred to the catch-all. *)
Variable matchPath : string → string → bool.

Definition resolve (isAuthenticated : bool) (location : string) : Element :=
  match List.find (λ r, matchPath (fst r) location)
          (pageRoutes isAuthenticated) with
  | Some r => snd r
  | None => fallback isAuthenticated
  end.

(** Where the user ends up: a redirect is followed once. *)
Definition landing (isAuthenticated : bool) (location : string) : Element :=
  match resolve isAuthenticated location with
  | Navigate to => resolve isAuthenticated to
  | shown => shown
  end.
End Router.

(** How an awaited call ends. *)
Inductive Settled (A : Type) :=
  | Resolved (value : A)
  | Rejected (error : string).
Arguments Resolved {A} value.
Arguments Rejected {A} error.

Inductive AuthStep :=
  | InitializeAuth
  | InitData
  | Logout
  | ConsoleError (error : string).

(** [checkAuth]: the calls it makes, in order, given how each awaited
    call ends.  [logoutFirst] is the [logout] of the [else] branch; the
    one of the [catch] block ends the function either way. *)
Definition checkAuth (auth : Settled bool) (initData logoutFirst : Settled unit)
  : list AuthStep :=
  let caught error := [ConsoleError error; Logout] in
  InitializeAuth ::
  match auth with
  | Rejected error => caught error
  | Resolved true =>
      InitData ::
      match initData with
      | Resolved _ => []
      | Rejected error => caught error
      end
  | Resolved false =>
      Logout ::
      match logoutFirst with
      | Resolved _ => []
      | Rejected error => caught error
      end
  end.

End App.

(** * Properties *)

(** ** The event loop: a burst keeps its timer from running *)
Module EventLoopFacts.
Import EventLoop.
Section Timers.
Context {St V Ev : Type}.
Variable pending : St → option (Timer V).
Variable fire : V → St → St.
Variable handle : Z → Ev → St → St.

Lemma advance_not_due now deadline v s :
  pending s = Some (deadline, v) → now < deadline →
  advance pending fire now s = s.
Proof.
  intros Hp Hlt. unfold advance. rewrite Hp.
  destruct (Z.leb_spec deadline now); [lia | done].
Qed.

Lemma advance_due now deadline v s :
  pending s = Some (deadline, v) → deadline ≤ now →
  advance pending fire now s = fire v s.
Proof.
  intros Hp Hle. unfold advance. rewrite Hp.
  destruct (Z.leb_spec deadline now); [done | lia].
Qed.

Lemma advance_idle now s :
  pending s = None → advance pending fire now s = s.
Proof. intros Hp. unfold advance. by rewrite Hp. Qed.

(** Inside a burst the run is the plain succession of its handlers. *)
Lemma run_burst evs : ∀ t v s,
  burstFrom t evs = true →
  pending s = Some (t + debounceDelay, v) →
  rearms pending handle evs s →
  run pending fire handle evs s = replay handle evs s.
Proof.
  induction evs as [|[t' e] rest IH]; intros t v s Hb Hp Hr; [done|].
  simpl in *.
  apply andb_prop in Hb as [Hb Hrest]. apply andb_prop in Hb as [_ Hlt].
  apply Z.ltb_lt in Hlt. destruct Hr as [[v' Hv'] Hr].
  rewrite (advance_not_due _ _ _ _ Hp Hlt). eauto.
Qed.
End Timers.
End EventLoopFacts.

(** ** StreamsTable: sorting *)
Module SortingFacts.
Import StreamsTable.

Lemma sorting_onSortingChange column s :
  sorting (onSortingChange column s) = nextSorting column (sorting s).
Proof. reflexivity. Qed.

Lemma nextSorting_same_field column srt :
  sortField srt = None ∨ sortField srt = Some column →
  direction (nextSorting column srt) = cycle (direction srt)
  ∧ sortField (nextSorting column srt)
    = match direction srt with DirDesc => None | _ => Some column end.
Proof.
  destruct srt as [|[f d] rest]; [done|].
  intros [Hf|Hf]; [done|]. simpl in Hf. injection Hf as ->.
  unfold nextSorting. simpl. rewrite String.eqb_refl.
  by destruct d as [|[]].
Qed.

Lemma nextSorting_other_field column other srt :
  sortField srt = Some other → other ≠ column →
  nextSorting column srt
  = [{| sort_id := column; sort_desc := DescBool false |}].
Proof.
  destruct srt as [|[f d] rest]; [done|].
  simpl. intros [= ->] Hne. unfold nextSorting. simpl.
  by apply String.eqb_neq in Hne as ->.
Qed.

Lemma nextSorting_length column srt :
  (length (nextSorting column srt) ≤ 1)%nat.
Proof.
  destruct srt as [|[f d] rest]; simpl; [lia|].
  unfold nextSorting. simpl.
  destruct (String.eqb f column), (looseEqFalse d); simpl; lia.
Qed.

Lemma nextSorting_field column srt :
  sortField (nextSorting column srt) = None
  ∨ sortField (nextSorting column srt) = Some column.
Proof.
  destruct srt as [|[f d] rest]; [by right|].
  unfold nextSorting. simpl.
  destruct (String.eqb f column), (looseEqFalse d); auto.
Qed.

(** [n] clicks on one column. *)
Lemma toggles_follow_cycle column n : ∀ s,
  sortField (sorting s) = None ∨ sortField (sorting s) = Some column →
  direction (sorting (Nat.iter n (onSortingChange column) s))
  = Nat.iter n cycle (direction (sorting s))
  ∧ (sortField (sorting (Nat.iter n (onSortingChange column) s)) = None
     ∨ sortField (sorting (Nat.iter n (onSortingChange column) s))
       = Some column).
Proof.
  induction n as [|n IH]; intros s Hs; [done|].
  rewrite !Nat.iter_succ. destruct (IH s Hs) as [Hd Hf].
  rewrite sorting_onSortingChange.
  destruct (nextSorting_same_field column _ Hf) as [Hd' _].
  rewrite Hd', Hd. split; [done|]. apply nextSorting_field.
Qed.

(** C3: clicking one column's sort control steps the direction through
    none, ascending, descending and back to none; clicking another
    column drops the entry of the column sorted so far and sorts the new
    one ascending; the sort state never holds more than one column. *)
Theorem sort_toggle_cycle (column : string) (s : State) :
  (sortField (sorting s) = None ∨ sortField (sorting s) = Some column →
     direction (sorting (onSortingChange column s))
     = cycle (direction (sorting s))
     ∧ sortField (sorting (onSortingChange column s))
       = match direction (sorting s) with
         | DirDesc => None
         | _ => Some column
         end)
  ∧ (∀ n, sorting s = [] →
       direction (sorting (Nat.iter n (onSortingChange column) s))
       = Nat.iter n cycle DirNone)
  ∧ (∀ other, sortField (sorting s) = Some other → other ≠ column →
       sorting (onSortingChange column s)
       = [{| sort_id := column; sort_desc := DescBool false |}]
       ∧ direction (sorting (onSortingChange column s)) = DirAsc)
  ∧ (length (sorting (onSortingChange column s)) ≤ 1)%nat.
Proof.
  rewrite sorting_onSortingChange. split; [|split; [|split]].
  - apply nextSorting_same_field.
  - intros n Hs.
    destruct (toggles_follow_cycle column n s) as [Hd _];
      [left; by rewrite Hs|].
    by rewrite Hd, Hs.
  - intros other Hf Hne.
    by rewrite (nextSorting_other_field column other _ Hf Hne).
  - apply nextSorting_length.
Qed.

(** The cycle on column [name], from a table with no sort, and the
    switch from [name] to [group]. *)
Lemma sort_toggle_cycle_witness :
  let s := setSorting [] (initialState []) in
  let s1 := onSortingChange "name" s in
  let s2 := onSortingChange "name" s1 in
  let s3 := onSortingChange "name" s2 in
  (direction (sorting s1) = DirAsc ∧ sortField (sorting s1) = Some "name")
  ∧ (direction (sorting s2) = DirDesc ∧ sortField (sorting s2) = Some "name")
  ∧ (direction (sorting s3) = DirNone ∧ sortField (sorting s3) = None)
  ∧ sorting (onSortingChange "group" s2)
    = [{| sort_id := "group"; sort_desc := DescBool false |}].
Proof.
  intros s s1 s2 s3.
  split; [|split; [|split]].
  - apply (proj1 (sort_toggle_cycle "name" s)). by left.
  - apply (proj1 (sort_toggle_cycle "name" s1)). by right.
  - apply (proj1 (sort_toggle_cycle "name" s2)). by right.
  - apply (proj1 (proj2 (proj2 (sort_toggle_cycle "group" s2))) "name");
      [reflexivity | discriminate].
Defined.

(** C10: the table starts sorted on [name] with [desc] the empty string.
    It is therefore sorted before any click, every fetch built from this
    sort state asks for [ordering=name] without a minus sign, and since
    the empty string is loosely equal to [false], the first click on
    [name] gives descending, not ascending. *)
Theorem initial_sort_is_name_then_desc (groups : list (Z * string)) :
  let s0 := initialState groups in
  sorting s0 = [{| sort_id := "name"; sort_desc := DescEmptyStr |}]
  ∧ direction (sorting s0) ≠ DirNone
  ∧ (∀ s, sorting s = sorting s0 →
       ∃ before after,
         fc_params (callOf s)
         = before ++ ("ordering", "name") :: after
         ∧ length before = 2%nat)
  ∧ fc_params (callOf s0)
    = [("page", "1"); ("page_size", "50"); ("ordering", "name")]
  ∧ looseEqFalse (sort_desc {| sort_id := "name"; sort_desc := DescEmptyStr |})
    = true
  ∧ sorting (onSortingChange "name" s0)
    = [{| sort_id := "name"; sort_desc := DescBool true |}]
  ∧ direction (sorting (onSortingChange "name" s0)) = DirDesc.
Proof.
  repeat split; try done.
  intros s Hs. simpl. unfold fetchParams. rewrite Hs. simpl.
  by exists [("page", pretty (pageIndex (pagination s) + 1));
             ("page_size", pretty (pageSize (pagination s)))],
            (filterParams (debouncedFilters s)).
Qed.

(** A fresh table on its second page, 25 rows to a page. *)
Lemma initial_sort_is_name_then_desc_witness :
  let s := setPagination {| pageIndex := 1; pageSize := 25 |}
             (initialState []) in
  ∃ before after,
    fc_params (callOf s) = before ++ ("ordering", "name") :: after
    ∧ length before = 2%nat.
Proof.
  intros s.
  destruct (initial_sort_is_name_then_desc []) as (_ & _ & Hfetch & _).
  exact (Hfetch s eq_refl).
Defined.

End SortingFacts.

(** ** StreamsTable: the fetch *)
Module FetchFacts.
Import StreamsTable.

Lemma ceilDiv_bounds a b :
  0 < b → (ceilDiv a b - 1) * b < a ≤ ceilDiv a b * b.
Proof.
  intros Hb. unfold ceilDiv.
  pose proof (Z.div_mod (- a) b) as Hdm.
  pose proof (Z.mod_pos_bound (- a) b Hb) as Hr.
  nia.
Qed.

Lemma orderingParam_direction srt :
  orderingParam srt
  = match sortField srt with
    | None => []
    | Some field =>
        [("ordering",
          match direction srt with DirDesc => "-" | _ => "" end +:+ field)]
    end.
Proof.
  destruct srt as [|[f d] rest]; [done|].
  simpl. by destruct (truthy d).
Qed.

Lemma elem_of_filterParams k v' f :
  (k, v') ∈ filterParams f
  ↔ ∃ v, (k, v) ∈ f ∧ filterTruthy v = true ∧ v' = filterToString v.
Proof.
  unfold filterParams. rewrite list_elem_of_In, in_flat_map. split.
  - intros [[k0 v] [Hin Hkv]]. simpl in Hkv.
    destruct (filterTruthy v) eqn:Ht; [|done].
    destruct Hkv as [[= <- <-]|[]].
    exists v. by rewrite list_elem_of_In.
  - intros (v & Hin & Ht & ->). exists (k, v).
    rewrite <- list_elem_of_In. split; [done|].
    simpl. rewrite Ht. by left.
Qed.

(** The request half of [fetchData], for every state. *)
Lemma fetch_request s :
  fetchCalls (fetchData s) = fetchCalls s ++ [callOf s]
  ∧ isLoading (fetchData s) = true
  ∧ fc_params (callOf s)
    = ("page", pretty (pageIndex (pagination s) + 1))
      :: ("page_size", pretty (pageSize (pagination s)))
      :: orderingParam (sorting s) ++ filterParams (debouncedFilters s).
Proof. done. Qed.

Lemma filterParams_map_filter f :
  filterParams f
  = (λ kv, (kv.1, filterToString kv.2))
      <$> List.filter (λ kv, filterTruthy kv.2) f.
Proof.
  unfold filterParams. induction f as [|[k v] f IH]; simpl; [done|].
  destruct (filterTruthy v); simpl; by rewrite IH.
Qed.

(** C7, as the code has it: for every query state [fetchData] sends
    [page = pageIndex + 1] and [page_size = pageSize]; while a column is
    sorted it sends [ordering], the column name with a minus sign in
    front exactly when the direction is descending, and no [ordering]
    when none is; of the committed filters it sends, in the order of the
    filter object and once each, the pairs whose value is truthy: a
    non-empty string, or an array, the empty array included; a filter
    whose value is the empty string is not sent.  When the requests
    succeed, the rows, the identifier list, the page count, the range
    string and the loading flag are set as stated; for a positive page
    size the page count is the ceiling of [count / pageSize]. *)
Theorem fetch_params_and_result (s s' : State) (result : QueryResult)
    (ids : list Z) (groups : list string) :
  let p := pagination s in
  let finished := fetchSucceeded (callOf s) result ids groups s' in
  (fetchCalls (fetchData s) = fetchCalls s ++ [callOf s]
   ∧ fc_params (callOf s)
     = ("page", pretty (pageIndex p + 1))
       :: ("page_size", pretty (pageSize p))
       :: orderingParam (sorting s) ++ filterParams (debouncedFilters s)
   ∧ orderingParam (sorting s)
     = match sortField (sorting s) with
       | None => []
       | Some field =>
           [("ordering",
             match direction (sorting s) with DirDesc => "-" | _ => "" end
             +:+ field)]
       end
   ∧ filterParams (debouncedFilters s)
     = (λ kv, (kv.1, filterToString kv.2))
         <$> List.filter (λ kv, filterTruthy kv.2) (debouncedFilters s)
   ∧ (∀ k v', (k, v') ∈ filterParams (debouncedFilters s)
        ↔ ∃ v, (k, v) ∈ debouncedFilters s ∧ filterTruthy v = true
               ∧ v' = filterToString v)
   ∧ (∀ text, filterTruthy (FStr text) = true ↔ text ≠ "")
   ∧ (∀ l, filterTruthy (FArr l) = true))
  ∧ (data finished = results result
     ∧ allRowIds finished = ids
     ∧ pageCount finished = ceilDiv (count result) (pageSize p)
     ∧ (0 < pageSize p →
        (pageCount finished - 1) * pageSize p < count result
        ≤ pageCount finished * pageSize p)
     ∧ paginationString finished
       = pretty (pageIndex p * pageSize p + 1) +:+ " to "
         +:+ pretty (Z.min ((pageIndex p + 1) * pageSize p) (count result))
         +:+ " of " +:+ pretty (count result)
     ∧ (initialDataCount s = None →
        initialDataCount finished = Some (count result))
     ∧ isLoading finished = false).
Proof.
  intros p finished.
  assert (pageCount finished = ceilDiv (count result) (pageSize p)) as Hpc.
  { unfold finished, fetchSucceeded. simpl.
    by destruct (initialDataCount s). }
  split.
  - split; [done|]. split; [done|].
    split; [apply orderingParam_direction|].
    split; [apply filterParams_map_filter|].
    split; [intros k v'; apply elem_of_filterParams|].
    split; [|done]. intros text. simpl.
    rewrite negb_true_iff. apply String.eqb_neq.
  - split; [|split; [|split; [exact Hpc|split; [|split; [|split]]]]].
    + unfold finished, fetchSucceeded. simpl.
      by destruct (initialDataCount s).
    + unfold finished, fetchSucceeded. simpl.
      by destruct (initialDataCount s).
    + intros Hp. rewrite Hpc. by apply ceilDiv_bounds.
    + unfold finished, fetchSucceeded. simpl.
      by destruct (initialDataCount s).
    + intros Hnone. unfold finished, fetchSucceeded. simpl.
      by rewrite Hnone.
    + done.
Qed.

Lemma fetch_params_and_result_witness :
  let result := {| results := []; count := 120 |} in
  let finished := fetchSucceeded (callOf page3) result [] [] page3 in
  fc_params (callOf page3)
  = [("page", "3"); ("page_size", "50"); ("ordering", "-name");
     ("name", "fox")]
  ∧ pageCount finished = 3
  ∧ paginationString finished = "101 to 120 of 120".
Proof.
  intros result finished.
  destruct (fetch_params_and_result page3 page3 result [] [])
    as [(_ & Hparams & _) (_ & _ & _ & Hcount & Hrange & _)].
  split; [exact Hparams|]. split; [|exact Hrange].
  specialize (Hcount eq_refl).
  change (pageSize (pagination page3)) with 50 in Hcount.
  change (count result) with 120 in Hcount.
  fold finished in Hcount. lia.
Defined.

(** C7 as written fails on the filters: the three filters of a fresh
    table are in the committed filter object, with empty values, and the
    request carries none of them.  And once two clicks on [name] have
    taken the table to the unsorted state, the request has no [ordering]
    either. *)
Lemma fetch_params_skip_empty_filters :
  let s := initialState [] in
  let unsorted := onSortingChange "name" (onSortingChange "name" s) in
  ("name", FStr "") ∈ debouncedFilters s
  ∧ fc_params (callOf s)
    = [("page", "1"); ("page_size", "50"); ("ordering", "name")]
  ∧ ¬ (∀ k v, (k, v) ∈ debouncedFilters s →
              (k, filterToString v) ∈ fc_params (callOf s))
  ∧ direction (sorting unsorted) = DirNone
  ∧ fc_params (callOf unsorted) = [("page", "1"); ("page_size", "50")].
Proof.
  split; [by left|]. split; [done|]. split; [|done].
  intros H. specialize (H "name" (FStr "") ltac:(by left)).
  change (fc_params (callOf (initialState [])))
    with [("page", "1"); ("page_size", "50"); ("ordering", "name")] in H.
  rewrite !elem_of_cons, elem_of_nil in H.
  destruct H as [H|[H|[H|[]]]]; discriminate H.
Qed.

Lemma fetchFailed_snapshot c error s :
  snapshot (fetchFailed c error s) = snapshot s.
Proof. done. Qed.

Lemma fetchFailed_deps c error s :
  fetchDataDeps (fetchFailed c error s) = fetchDataDeps s.
Proof. done. Qed.

Lemma failures_keep_snapshot (errs : list (FetchCall * string)) : ∀ s,
  let s' := fold_left (λ acc ce, fetchFailed ce.1 ce.2 acc) errs s in
  snapshot s' = snapshot s ∧ fetchCalls s' = fetchCalls s
  ∧ fetchDataDeps s' = fetchDataDeps s.
Proof.
  induction errs as [|[c e] rest IH]; intros s; [done|].
  simpl. destruct (IH (fetchFailed c e s)) as (H1 & H2 & H3).
  by rewrite H1, H2, H3.
Qed.

(** What an event adds to the calls of [fetchData]. *)
Lemma tableStep_fetchCalls ev s :
  fetchCalls (tableStep ev s)
  = fetchCalls s
    ++ (if startsFetch ev s then [callOf (tableStep ev s)] else []).
Proof.
  destruct ev as [now e|now|column|page|value| |c result ids groups|c error
                 | |error|groups|loading]; simpl.
  - destruct e; simpl; by rewrite app_nil_r.
  - unfold advance, EventLoop.advance, timerDue.
    destruct (debounceTimer s) as [[d f]|]; [|by rewrite app_nil_r].
    destruct (d <=? now); [done | by rewrite app_nil_r].
  - done.
  - unfold onPageIndexChange.
    destruct ((page =? 0) || (pageCount s <? page)); simpl;
      [by rewrite app_nil_r | done].
  - done.
  - done.
  - unfold fetchSucceeded. simpl.
    destruct (fc_initialDataCount c); simpl; by rewrite app_nil_r.
  - by rewrite app_nil_r.
  - unfold groupsFetchSucceeded.
    destruct (groupsLoaded s); simpl; [by rewrite app_nil_r | done].
  - by rewrite app_nil_r.
  - done.
  - by rewrite app_nil_r.
Qed.

Lemma quiet_events_fetch_nothing evs : ∀ s,
  forallb neverFetches evs = true →
  fetchCalls (tableSteps evs s) = fetchCalls s.
Proof.
  unfold tableSteps.
  induction evs as [|ev evs IH]; intros s Hq; [done|].
  simpl in *. apply andb_prop in Hq as [Hev Hq].
  rewrite IH, tableStep_fetchCalls by done.
  destruct ev; try done; by rewrite app_nil_r.
Qed.

(** C8 as written fails on its last clause: after a failed fetch, with
    page index, sort and committed filters as they were, a new
    channel-group table from the store, the end of the group load, a
    change of the page size and the closing of the stream form each
    start a fetch. *)
Lemma fetch_after_failure_without_page_filter_sort :
  let s' := fetchFailed (callOf page3) "Network Error" page3 in
  let same s'' :=
    pageIndex (pagination s'') = pageIndex (pagination s')
    ∧ sorting s'' = sorting s'
    ∧ debouncedFilters s'' = debouncedFilters s' in
  fetchCalls s' = []
  ∧ (length (fetchCalls (channelGroupsChanged [(1, "News")] s')) = 1%nat
     ∧ same (channelGroupsChanged [(1, "News")] s'))
  ∧ (length (fetchCalls (groupsFetchSucceeded s')) = 1%nat
     ∧ same (groupsFetchSucceeded s'))
  ∧ (length (fetchCalls (onPageSizeChange 100 s')) = 1%nat
     ∧ same (onPageSizeChange 100 s'))
  ∧ (length (fetchCalls (closeStreamForm s')) = 1%nat
     ∧ same (closeStreamForm s')).
Proof. repeat split; done. Qed.

(** C8, as the code has it: when the requests of a fetch fail, the error
    goes to the console and the loading flag is cleared; rows, page
    count and range string stay what they were, however many fetches
    fail in a row; the failure itself starts no fetch, touches nothing
    [fetchData] depends on and arms no timer.  The next fetch is started
    by the next event that calls [fetchData], and by nothing else: the
    commit of a filter edit, a sort click, a change to a page there is,
    a change of the page size, the closing of the stream form, the end
    of the channel-group load, a new channel-group table; typing into a
    filter and the results of fetches, in any number, start none. *)
Theorem fetch_failure_keeps_last_snapshot (c : FetchCall) (error : string)
    (s : State) :
  let s' := fetchFailed c error s in
  console s' = console s ++ ["Error fetching data: " +:+ error]
  ∧ isLoading s' = false
  ∧ (data s' = data s ∧ pageCount s' = pageCount s
     ∧ paginationString s' = paginationString s
     ∧ allRowIds s' = allRowIds s)
  ∧ (∀ errs : list (FetchCall * string),
       let s'' := fold_left (λ acc ce, fetchFailed ce.1 ce.2 acc) errs s' in
       snapshot s'' = snapshot s ∧ fetchCalls s'' = fetchCalls s)
  ∧ (fetchCalls s' = fetchCalls s
     ∧ fetchDataDeps s' = fetchDataDeps s
     ∧ debounceTimer s' = debounceTimer s)
  ∧ (∀ page, page ≠ 0 → page ≤ pageCount s' →
       fetchCalls (onPageIndexChange page s')
       = fetchCalls s ++ [callOf (onPageIndexChange page s')])
  ∧ (∀ column,
       fetchCalls (onSortingChange column s')
       = fetchCalls s ++ [callOf (onSortingChange column s')])
  ∧ (∀ f,
       fetchCalls (debounceFire f s')
       = fetchCalls s ++ [callOf (debounceFire f s')])
  ∧ (∀ ev s0,
       fetchCalls (tableStep ev s0)
       = fetchCalls s0
         ++ (if startsFetch ev s0 then [callOf (tableStep ev s0)] else []))
  ∧ (∀ ev, startsFetch ev s' = startsFetch ev s)
  ∧ (∀ evs, forallb neverFetches evs = true →
       fetchCalls (tableSteps evs s') = fetchCalls s).
Proof.
  intros s'. do 3 (split; [done|]).
  split; [|split; [done|split; [|split; [done|split; [done|split]]]]].
  - intros errs.
    destruct (failures_keep_snapshot errs s') as (H1 & H2 & _).
    cbv zeta in *. by rewrite H1, H2.
  - intros page Hne Hle. unfold onPageIndexChange.
    destruct (Z.eqb_spec page 0); [done|].
    destruct (Z.ltb_spec (pageCount s') page); [lia|]. done.
  - apply tableStep_fetchCalls.
  - split; [by intros []|].
    intros evs Hq. by rewrite quiet_events_fetch_nothing.
Qed.

(** The fetch of page 3 fails; more failures and typing fetch nothing;
    going to page 2 afterwards fetches. *)
Lemma fetch_failure_keeps_last_snapshot_witness :
  let s' := fetchFailed (callOf page3) "Network Error" page3 in
  console s' = ["Error fetching data: Network Error"]
  ∧ isLoading s' = false
  ∧ pageCount s' = 3
  ∧ fetchCalls s' = []
  ∧ fetchCalls
      (tableSteps [EvFetchFailed (callOf page3) "timeout";
                   EvFilterEdit 0 (InputChange "name" "bbc")] s') = []
  ∧ fc_params <$> fetchCalls (onPageIndexChange 2 s')
    = [[("page", "2"); ("page_size", "50"); ("ordering", "-name");
        ("name", "fox")]].
Proof.
  intros s'.
  destruct (fetch_failure_keeps_last_snapshot (callOf page3)
              "Network Error" page3)
    as (Hlog & Hload & (_ & Hcount & _) & _ & (Hcalls & _) & Hpage & _
        & _ & _ & _ & Hquiet).
  split; [exact Hlog|]. split; [exact Hload|]. split; [exact Hcount|].
  split; [exact Hcalls|].
  split;
    [exact (Hquiet [EvFetchFailed (callOf page3) "timeout";
                    EvFilterEdit 0 (InputChange "name" "bbc")] eq_refl)|].
  subst s'. rewrite (Hpage 2 ltac:(discriminate) ltac:(discriminate)).
  reflexivity.
Defined.

End FetchFacts.

(** ** The debounced filters of StreamsTable *)
Module FilterDebounceFacts.
Import EventLoop EventLoopFacts StreamsTable.

Lemma handleEdit_stage t e s :
  handleEdit t e s = stageFilters t (editedFilters e (filters s)) s.
Proof. by destruct e. Qed.

Lemma stageFilters_again t1 f1 t2 f2 s :
  stageFilters t2 f2 (stageFilters t1 f1 s) = stageFilters t2 f2 s.
Proof. done. Qed.

Lemma replay_staged evs : ∀ t f s,
  replay handleEdit evs (stageFilters t f s)
  = stageFilters (lastTime t evs) (editAll evs f) s.
Proof.
  induction evs as [|[t' e] rest IH]; intros t f s; [done|].
  simpl. rewrite handleEdit_stage, stageFilters_again.
  apply IH.
Qed.

Lemma edits_rearm evs : ∀ s, rearms debounceTimer handleEdit evs s.
Proof.
  induction evs as [|[t e] rest IH]; intros s; [done|].
  simpl. split; [|apply IH].
  rewrite handleEdit_stage. by eexists.
Qed.

Lemma advance_filters now s : filters (advance now s) = filters s.
Proof.
  unfold advance, EventLoop.advance.
  destruct (debounceTimer s) as [[d f]|]; [|done].
  by destruct (d <=? now).
Qed.

(** A burst leaves the last filter object staged and its timer armed,
    over the state the burst found. *)
Lemma run_burst_staged t0 e0 rest s :
  burstFrom t0 rest = true →
  run ((t0, e0) :: rest) s
  = stageFilters (lastTime t0 rest) (editAll ((t0, e0) :: rest) (filters s))
      (advance t0 s).
Proof.
  intros Hb. unfold run. simpl.
  rewrite handleEdit_stage, advance_filters.
  erewrite run_burst;
    [apply replay_staged | exact Hb | done | apply edits_rearm].
Qed.

(** The commit: what the timer leaves behind when it runs. *)
Lemma commit_staged t f s T :
  t + debounceDelay ≤ T →
  advance T (stageFilters t f s)
  = fetchData (resetPage (setDebouncedFilters f
                 (setDebounceTimer None (setFilters f s)))).
Proof.
  intros HT. unfold advance.
  by erewrite advance_due; [| reflexivity | exact HT].
Qed.

(** C1: whatever page the table is on when a filter is edited, once the
    quiet period has passed and the edit commits, the page index is 0,
    and the one fetch that the commit starts is built with page index 0
    (it asks for [page=1]) and with the committed filters. *)
Theorem filter_commit_resets_page (t T : Z) (e : FilterEdit) (s : State) :
  t + debounceDelay ≤ T →
  let s' := advance T (handleEdit t e s) in
  pageIndex (pagination s') = 0
  ∧ debouncedFilters s' = editedFilters e (filters s)
  ∧ fetchCalls s' = fetchCalls s ++ [callOf s']
  ∧ pageIndex (fc_pagination (callOf s')) = 0
  ∧ fc_params (callOf s')
    = ("page", "1") :: ("page_size", pretty (pageSize (pagination s)))
      :: orderingParam (sorting s)
      ++ filterParams (editedFilters e (filters s)).
Proof.
  intros HT s'. unfold s'.
  rewrite handleEdit_stage, (commit_staged _ _ _ _ HT). done.
Qed.

(** On page 3, the name filter is edited at 1000 ms and commits at
    1500 ms. *)
Lemma filter_commit_resets_page_witness :
  let s' := advance 1500 (handleEdit 1000 (InputChange "name" "bbc") page3) in
  pageIndex (pagination page3) = 2
  ∧ pageIndex (pagination s') = 0
  ∧ fc_params (callOf s')
    = [("page", "1"); ("page_size", "50"); ("ordering", "-name");
       ("name", "bbc")].
Proof.
  intros s'.
  destruct (filter_commit_resets_page 1000 1500 (InputChange "name" "bbc")
              page3 ltac:(unfold debounceDelay; lia))
    as (Hpage & _ & _ & _ & Hparams).
  split; [reflexivity|]. split; [exact Hpage | exact Hparams].
Defined.

End FilterDebounceFacts.

(** ** The debounced patterns of M3UProfile *)
Module PatternDebounceFacts.
Import EventLoop EventLoopFacts M3UProfile.

Lemma handleEdit_staged t0 t e p s :
  changes e p = true →
  handleEdit t e (staged t0 p s) = staged t (editedPatterns e p) s.
Proof.
  unfold changes. intros Hc. apply negb_true_iff in Hc.
  destruct e as [v|v]; simpl in *;
    unfold onSearchPatternUpdate, onReplacePatternUpdate; simpl;
    by rewrite Hc.
Qed.

Lemma handleEdit_first t e s :
  changes e (currentPatterns s) = true →
  handleEdit t e s = staged t (editedPatterns e (currentPatterns s)) s.
Proof.
  unfold changes. intros Hc. apply negb_true_iff in Hc.
  destruct s, e as [v|v]; simpl in *;
    unfold onSearchPatternUpdate, onReplacePatternUpdate; simpl;
    by rewrite Hc.
Qed.

Lemma replay_patterns evs : ∀ t p s,
  allChange evs p = true →
  replay handleEdit evs (staged t p s)
  = staged (lastTime t evs) (editAll evs p) s.
Proof.
  induction evs as [|[t' e] rest IH]; intros t p s Hc; [done|].
  simpl in *. apply andb_prop in Hc as [Hc Hrest].
  rewrite handleEdit_staged by exact Hc. by apply IH.
Qed.

Lemma pattern_edits_rearm evs : ∀ t p s,
  allChange evs p = true →
  rearms patternTimer handleEdit evs (staged t p s).
Proof.
  induction evs as [|[t' e] rest IH]; intros t p s Hc; [done|].
  simpl in *. apply andb_prop in Hc as [Hc Hrest].
  rewrite handleEdit_staged by exact Hc.
  split; [by eexists | by apply IH].
Qed.

Lemma advance_patterns now s :
  currentPatterns (advance now s) = currentPatterns s
  ∧ websocketReady (advance now s) = websocketReady s
  ∧ streamUrl (advance now s) = streamUrl s
  ∧ sampleInput (advance now s) = sampleInput s.
Proof.
  unfold advance, EventLoop.advance.
  destruct (patternTimer s) as [[d p]|]; [|done].
  destruct (d <=? now); [|done].
  unfold patternTimerFire, previewEffect. simpl.
  by destruct (negb (websocketReady s) || String.eqb (streamUrl s) "").
Qed.

Lemma run_burst_patterns t0 e0 rest s :
  burstFrom t0 rest = true →
  allChange ((t0, e0) :: rest) (currentPatterns s) = true →
  run ((t0, e0) :: rest) s
  = staged (lastTime t0 rest)
      (editAll ((t0, e0) :: rest) (currentPatterns s)) (advance t0 s).
Proof.
  intros Hb Hc. unfold run. simpl in *.
  apply andb_prop in Hc as [Hc Hrest].
  destruct (advance_patterns t0 s) as (Hp & _).
  fold (advance t0 s).
  rewrite handleEdit_first; rewrite Hp; [|exact Hc].
  erewrite run_burst;
    [by apply replay_patterns | exact Hb | done | by apply pattern_edits_rearm].
Qed.

Lemma commit_patterns t p s T :
  t + debounceDelay ≤ T →
  debouncedPatterns (advance T (staged t p s)) = p
  ∧ sent (advance T (staged t p s)) = sent s ++ previewOf p s
  ∧ patternTimer (advance T (staged t p s)) = None.
Proof.
  intros HT. unfold advance.
  erewrite advance_due; [| reflexivity | exact HT].
  unfold patternTimerFire, previewEffect, previewOf. simpl.
  destruct (negb (websocketReady s) || String.eqb (streamUrl s) "");
    simpl; by rewrite ?app_nil_r.
Qed.

End PatternDebounceFacts.

(** ** Bursts of edits *)
Module BurstFacts.
Import EventLoop EventLoopFacts PatternDebounceFacts StreamsTable.

(** C2: a burst of filter edits, each less than 500 ms after the one
    before, starts exactly one fetch, when the quiet period after the
    last edit has passed, and that fetch carries the filters as the last
    edit left them; typing fo, fox, foxtrot into the name filter within
    one window fetches once, with [name=foxtrot].  The patterns of the
    regex preview are debounced in the same way: one commit per burst of
    edits, of the patterns as last edited, and with it one preview
    request when the socket is up and a stream URL is known. *)
Theorem burst_commits_last_edit_once :
  (∀ t0 e0 rest s later,
     burstFrom t0 rest = true →
     lastTime t0 rest + debounceDelay ≤ later →
     let evs := (t0, e0) :: rest in
     let before := advance t0 s in
     let after := advance later (run evs s) in
     let committed := editAll evs (filters s) in
     fetchCalls after = fetchCalls before ++ [callOf after]
     ∧ fetchCalls (run evs s) = fetchCalls before
     ∧ debouncedFilters after = committed
     ∧ fc_params (callOf after)
       = fetchParams
           {| pageIndex := 0; pageSize := pageSize (pagination before) |}
           (sorting before) committed
     ∧ debounceTimer after = None)
  ∧ (let s := mount [] in
     let after := advance 700 (run typingFoxtrot s) in
     fc_params <$> fetchCalls after
     = (fc_params <$> fetchCalls s)
       ++ [[("page", "1"); ("page_size", "50"); ("ordering", "name");
            ("name", "foxtrot")]])
  ∧ (∀ t0 e0 rest s later,
       burstFrom t0 rest = true →
       M3UProfile.allChange ((t0, e0) :: rest) (M3UProfile.currentPatterns s)
       = true →
       lastTime t0 rest + debounceDelay ≤ later →
       let evs := (t0, e0) :: rest in
       let before := M3UProfile.advance t0 s in
       let after := M3UProfile.advance later (M3UProfile.run evs s) in
       let committed :=
         M3UProfile.editAll evs (M3UProfile.currentPatterns s) in
       M3UProfile.debouncedPatterns after = committed
       ∧ M3UProfile.debouncedPatterns (M3UProfile.run evs s)
         = M3UProfile.debouncedPatterns before
       ∧ M3UProfile.sent (M3UProfile.run evs s) = M3UProfile.sent before
       ∧ M3UProfile.sent after
         = M3UProfile.sent before ++ M3UProfile.previewOf committed s
       ∧ M3UProfile.patternTimer after = None).
Proof.
  split; [|split].
  - intros t0 e0 rest s later Hb Hlater evs before after committed.
    unfold after, evs.
    rewrite (FilterDebounceFacts.run_burst_staged _ _ _ _ Hb).
    rewrite (FilterDebounceFacts.commit_staged _ _ _ _ Hlater). done.
  - reflexivity.
  - intros t0 e0 rest s later Hb Hc Hlater evs before after committed.
    subst evs before after.
    rewrite (run_burst_patterns _ _ _ _ Hb Hc). fold committed.
    destruct (commit_patterns (lastTime t0 rest) committed
                (M3UProfile.advance t0 s) later Hlater) as (H1 & H2 & H3).
    destruct (advance_patterns t0 s) as (_ & Hw & Hu & Hi).
    split; [exact H1|]. split; [done|]. split; [done|].
    split; [|exact H3].
    rewrite H2. unfold M3UProfile.previewOf.
    by rewrite Hw, Hu, Hi.
Qed.

(** The three name edits 100 ms apart on page 3, and three pattern edits
    in a fresh form. *)
Lemma burst_commits_last_edit_once_witness :
  (let after := advance 700 (run typingFoxtrot page3) in
   fetchCalls after = fetchCalls page3 ++ [callOf after]
   ∧ fc_params (callOf after)
     = [("page", "1"); ("page_size", "50"); ("ordering", "-name");
        ("name", "foxtrot")])
  ∧ (let after :=
       M3UProfile.advance 900
         (M3UProfile.run M3UProfile.typingPatterns M3UProfile.blankForm) in
     M3UProfile.debouncedPatterns after
     = {| M3UProfile.search := "live/"; M3UProfile.replace := "vod" |}
     ∧ M3UProfile.sent after
       = [{| M3UProfile.msg_url := "http://host/live/1.ts";
             M3UProfile.msg_search := "live/";
             M3UProfile.msg_replace := "vod" |}]).
Proof.
  destruct burst_commits_last_edit_once as (Hfilters & _ & Hpatterns).
  split.
  - destruct (Hfilters 0 (InputChange "name" "fo")
                [(100, InputChange "name" "fox");
                 (200, InputChange "name" "foxtrot")] page3 700
                eq_refl ltac:(unfold debounceDelay; simpl; lia))
      as (Hcalls & _ & _ & Hparams & _).
    split; [exact Hcalls | exact Hparams].
  - destruct (Hpatterns 0 (M3UProfile.SearchEdit "live")
                [(150, M3UProfile.ReplaceEdit "vod");
                 (400, M3UProfile.SearchEdit "live/")]
                M3UProfile.blankForm 900 eq_refl eq_refl
                ltac:(unfold debounceDelay; simpl; lia))
      as (Hdeb & _ & _ & Hsent & _).
    split; [exact Hdeb | exact Hsent].
Defined.

End BurstFacts.

(** ** M3UProfile: the local regex preview *)
Module PreviewFacts.
Import M3UProfile.

Section LocalRegex.
Variable Regex : Type.
Variable compile : string → option Regex.
Variable replaceWith : Regex → (string → string) → string → string.
Variable replaceBy : Regex → string → string → string.

(** C9: when the search pattern does not compile, and also when the
    pattern or the sample is empty, the highlighted text and the
    replace result are the sample input as typed. *)
Theorem preview_falls_back_to_sample (s : State) :
  searchPattern s = "" ∨ sampleInput s = ""
  ∨ compile (searchPattern s) = None →
  getHighlightedSearchText Regex compile replaceWith s = sampleInput s
  ∧ getLocalReplaceResult Regex compile replaceBy s = sampleInput s.
Proof.
  unfold getHighlightedSearchText, getLocalReplaceResult.
  intros [H|[H|H]]; rewrite H; simpl.
  - done.
  - by rewrite orb_true_r.
  - by destruct (_ || _).
Qed.
End LocalRegex.

(** An unterminated character class, an empty pattern and an empty
    sample, on the literal engine. *)
Lemma preview_falls_back_to_sample_witness :
  let bad := setSearchPattern "[0-9" blankForm in
  let none := blankForm in
  let empty := setSampleInput "" (setSearchPattern "live" blankForm) in
  getHighlightedSearchText string literalCompile literalReplaceWith bad
  = "http://host/live/1.ts"
  ∧ getLocalReplaceResult string literalCompile literalReplaceBy bad
    = "http://host/live/1.ts"
  ∧ getLocalReplaceResult string literalCompile literalReplaceBy none
    = "http://host/live/1.ts"
  ∧ getHighlightedSearchText string literalCompile literalReplaceWith empty
    = "".
Proof.
  intros bad none empty.
  split; [|split; [|split]].
  - apply (preview_falls_back_to_sample string literalCompile
             literalReplaceWith literalReplaceBy bad).
    right; right; reflexivity.
  - apply (preview_falls_back_to_sample string literalCompile
             literalReplaceWith literalReplaceBy bad).
    right; right; reflexivity.
  - apply (preview_falls_back_to_sample string literalCompile
             literalReplaceWith literalReplaceBy none).
    left; reflexivity.
  - apply (preview_falls_back_to_sample string literalCompile
             literalReplaceWith literalReplaceBy empty).
    right; left; reflexivity.
Defined.

End PreviewFacts.

(** ** ChannelStreams: reordering by drag and drop *)
Module ReorderFacts.
Import ChannelStreams.

Lemma indexOf_position x l i :
  position x l = Some i → indexOf x l = Z.of_nat i.
Proof.
  unfold position. revert i.
  induction l as [|y l IH]; intros i; [done|].
  simpl. destruct (Z.eqb_spec x y) as [->|Hne].
  - rewrite decide_True by done. by intros [= <-].
  - rewrite decide_False by done.
    destruct (list_find _ l) as [[k z]|] eqn:Hf; [|done].
    simpl. intros [= <-]. rewrite (IH k eq_refl).
    destruct (Z.ltb_spec (Z.of_nat k) 0); lia.
Qed.

Lemma position_lookup x l i :
  position x l = Some i → l !! i = Some x.
Proof.
  unfold position. destruct (list_find _ l) as [[k z]|] eqn:Hf; [|done].
  simpl. intros [= <-].
  apply list_find_Some in Hf as (Hk & -> & _). done.
Qed.

Lemma dataIds_lookup s i a :
  dataIds s !! i = Some a → ∃ x, data s !! i = Some x ∧ row_id x = a.
Proof.
  unfold dataIds. rewrite list_lookup_fmap.
  destruct (data s !! i) as [x|]; [|done].
  simpl. intros [= <-]. by exists x.
Qed.

Lemma removeAt_delete {A} i (l : list A) : delete i l = removeAt i l.
Proof. apply delete_take_drop. Qed.

(** With both indices inside the array, [arrayMove] is one removal and
    one insertion. *)
Lemma arrayMove_inside {A} (l : list A) i j x :
  l !! i = Some x → (j < length l)%nat →
  arrayMove l (Z.of_nat i) (Z.of_nat j)
  = Some (insertAt j x (removeAt i l)).
Proof.
  intros Hi Hj. pose proof (lookup_lt_Some _ _ _ Hi) as Hlt.
  unfold arrayMove, spliceStart.
  destruct (Z.ltb_spec (Z.of_nat i) 0); [lia|].
  destruct (Z.ltb_spec (Z.of_nat j) 0); [lia|].
  rewrite Z.min_l, Nat2Z.id by lia. rewrite Hi.
  rewrite length_delete by (by eexists).
  destruct (Z.ltb_spec (Z.of_nat j) 0); [lia|].
  rewrite Z.min_l, Nat2Z.id by lia.
  by rewrite removeAt_delete.
Qed.

Lemma insertAt_lookup {A} j (x : A) l :
  (j ≤ length l)%nat → insertAt j x l !! j = Some x.
Proof.
  intros Hj. unfold insertAt.
  rewrite lookup_app_r; rewrite length_take, Nat.min_l by lia; [|lia].
  by rewrite Nat.sub_diag.
Qed.

Lemma move_Permutation {A} (l : list A) i j x :
  l !! i = Some x → insertAt j x (removeAt i l) ≡ₚ l.
Proof.
  intros Hi. unfold insertAt.
  rewrite <- Permutation_middle, take_drop, <- removeAt_delete.
  symmetry. by apply delete_Permutation.
Qed.

(** A drop by an administrator onto another row. *)
Lemma dropOn_reorders ADMIN s a o i j :
  user_level s = ADMIN → active s = Some a → a ≠ o →
  position a (dataIds s) = Some i → position o (dataIds s) = Some j →
  ∃ x, data s !! i = Some x ∧ row_id x = a
       ∧ dropOn ADMIN (Some o) s
         = setData (insertAt j x (removeAt i (data s)))
             (updateChannel (row_id <$> insertAt j x (removeAt i (data s)))
                (setActive None s)).
Proof.
  intros Hlevel Hactive Hne Hi Hj.
  destruct (dataIds_lookup s i a (position_lookup _ _ _ Hi)) as (x & Hx & Hid).
  exists x. split; [done|]. split; [done|].
  unfold dropOn. rewrite Hactive. unfold handleDragEnd. simpl.
  rewrite Hlevel, Z.eqb_refl. simpl.
  destruct (Z.eqb_spec a o); [done|].
  change (dataIds (setActive None s)) with (dataIds s).
  rewrite (indexOf_position _ _ _ Hi), (indexOf_position _ _ _ Hj).
  rewrite (arrayMove_inside _ _ _ x Hx); [done|].
  apply position_lookup, lookup_lt_Some in Hj.
  unfold dataIds in Hj. by rewrite length_fmap in Hj.
Qed.

(** C4: an administrator drops the dragged row onto another row.  The
    new order is the old one with the dragged row removed from its place
    and inserted at the place of the row it was dropped on; it is the
    local order from then on, and the identifiers in that order are
    handed to [updateChannel].  With rows A, B, C, D, dragging C to the
    first place gives C, A, B, D on both sides. *)
Theorem drop_moves_row_and_persists (ADMIN : Z) :
  (∀ s a o i j,
     user_level s = ADMIN → active s = Some a → a ≠ o →
     position a (dataIds s) = Some i → position o (dataIds s) = Some j →
     let s' := dropOn ADMIN (Some o) s in
     (∃ x, data s !! i = Some x ∧ row_id x = a
           ∧ data s' = insertAt j x (removeAt i (data s))
           ∧ data s' !! j = Some x)
     ∧ data s' ≡ₚ data s
     ∧ updateCalls s' = updateCalls s ++ [row_id <$> data s']
     ∧ phase s' = Committing)
  ∧ (let s := grab (row_id rowC) (idle ADMIN [rowA; rowB; rowC; rowD]) in
     let s' := dropOn ADMIN (Some (row_id rowA)) s in
     data s' = [rowC; rowA; rowB; rowD]
     ∧ updateCalls s' = [row_id <$> [rowC; rowA; rowB; rowD]]).
Proof.
  assert (∀ s a o i j,
     user_level s = ADMIN → active s = Some a → a ≠ o →
     position a (dataIds s) = Some i → position o (dataIds s) = Some j →
     let s' := dropOn ADMIN (Some o) s in
     (∃ x, data s !! i = Some x ∧ row_id x = a
           ∧ data s' = insertAt j x (removeAt i (data s))
           ∧ data s' !! j = Some x)
     ∧ data s' ≡ₚ data s
     ∧ updateCalls s' = updateCalls s ++ [row_id <$> data s']
     ∧ phase s' = Committing) as Hgen.
  { intros s a o i j Hlevel Hactive Hne Hi Hj s'.
    destruct (dropOn_reorders ADMIN s a o i j Hlevel Hactive Hne Hi Hj)
      as (x & Hx & Hid & Hdrop).
    unfold s'. rewrite Hdrop. simpl.
    split; [|split; [by apply move_Permutation | done]].
    exists x. repeat split; try done.
    apply insertAt_lookup.
    apply position_lookup, lookup_lt_Some in Hj.
    unfold dataIds in Hj. rewrite length_fmap in Hj.
    pose proof (lookup_lt_Some _ _ _ Hx) as Hlt.
    unfold removeAt. rewrite length_app, length_take, length_drop. lia. }
  split; [exact Hgen|].
  intros s s'.
  destruct (Hgen s 3 1 2%nat 0%nat)
    as ((x & Hx & _ & Hdata & _) & _ & Hcalls & _); try done.
  injection Hx as <-. rewrite Hdata in Hcalls.
  split; [exact Hdata | exact Hcalls].
Qed.

Lemma drop_moves_row_and_persists_witness :
  let s := grab 3 (idle 10 [rowA; rowB; rowC; rowD]) in
  let s' := dropOn 10 (Some 1) s in
  data s' = [rowC; rowA; rowB; rowD]
  ∧ updateCalls s' = [[3; 1; 2; 4]]
  ∧ phase s' = Committing.
Proof.
  intros s s'.
  destruct (proj1 (drop_moves_row_and_persists 10) s 3 1 2%nat 0%nat)
    as ((x & Hx & _ & Hdata & _) & _ & Hcalls & Hphase);
    [reflexivity | reflexivity | discriminate | reflexivity | reflexivity |].
  injection Hx as <-. rewrite Hdata in Hcalls.
  split; [exact Hdata|]. split; [exact Hcalls | exact Hphase].
Defined.

Lemma gesture_unprivileged ADMIN g s :
  user_level s ≠ ADMIN →
  user_level (gesture ADMIN g s) = user_level s
  ∧ data (gesture ADMIN g s) = data s
  ∧ updateCalls (gesture ADMIN g s) = updateCalls s
  ∧ inFlight (gesture ADMIN g s) = inFlight s.
Proof.
  intros Hlevel. destruct g as [rowId|over|]; simpl.
  - unfold grab. by destruct (active s).
  - unfold dropOn. destruct (active s) as [a|]; [|done].
    unfold handleDragEnd. simpl.
    by destruct (Z.eqb_spec (user_level s) ADMIN).
  - done.
Qed.

(** C5 as written fails: a user below administrator level presses the
    drag handle of row 3 and the coordinator leaves Idle. *)
Lemma unprivileged_grab_starts_dragging :
  let s := idle 1 [rowA; rowB; rowC; rowD] in
  user_level s ≠ 10
  ∧ phase s = Idle
  ∧ phase (grab 3 s) = Dragging
  ∧ phase (grab 3 s) ≠ Idle.
Proof. repeat split; done. Qed.

(** C5, as the code has it: the privilege is checked when the row is
    dropped, not when it is grabbed.  A user who is not an administrator
    does start a drag session; the drop then returns before any reorder,
    so that over every sequence of gestures of such a user the local
    order is unchanged and no persist call is issued, and after the drop
    the coordinator is Idle again. *)
Theorem unprivileged_drop_is_rejected (ADMIN : Z) (s : State) :
  user_level s ≠ ADMIN →
  (∀ rowId, phase s = Idle → phase (grab rowId s) = Dragging)
  ∧ (∀ rowId over,
       phase s = Idle → phase (dropOn ADMIN over (grab rowId s)) = Idle)
  ∧ (∀ gs,
       let s' := gestures ADMIN gs s in
       data s' = data s ∧ updateCalls s' = updateCalls s
       ∧ inFlight s' = inFlight s).
Proof.
  intros Hlevel. split; [|split].
  - intros rowId. unfold phase, grab. by destruct (active s).
  - intros rowId over. unfold phase at 1.
    destruct (active s) eqn:Ha; [done|].
    destruct (inFlight s) eqn:Hf; [|done]. intros _.
    unfold dropOn, grab. rewrite Ha. simpl.
    unfold handleDragEnd. simpl.
    destruct (Z.eqb_spec (user_level s) ADMIN); [done|].
    unfold phase. simpl. by rewrite Hf.
  - intros gs. revert s Hlevel.
    induction gs as [|g gs IH]; intros s Hlevel; [done|].
    simpl. destruct (gesture_unprivileged ADMIN g s Hlevel)
      as (Hl & Hd & Hu & Hf).
    destruct (IH (gesture ADMIN g s)) as (Hd' & Hu' & Hf');
      [by rewrite Hl|].
    unfold gestures in *. by rewrite Hd', Hu', Hf'.
Qed.

Lemma unprivileged_drop_is_rejected_witness :
  let s := idle 1 [rowA; rowB; rowC; rowD] in
  let s' := gestures 10 [GrabRow 3; DropOver (Some 1)] s in
  phase (grab 3 s) = Dragging
  ∧ phase (dropOn 10 (Some 1) (grab 3 s)) = Idle
  ∧ data s' = [rowA; rowB; rowC; rowD]
  ∧ updateCalls s' = [].
Proof.
  intros s s'.
  destruct (unprivileged_drop_is_rejected 10 s ltac:(discriminate))
    as (Hgrab & Hdrop & Hall).
  split; [by apply Hgrab|]. split; [by apply Hdrop|].
  destruct (Hall [GrabRow 3; DropOver (Some 1)]) as (Hd & Hu & _).
  split; [exact Hd | exact Hu].
Defined.

(** A drop either issues no call and leaves the rows, or it is a
    reorder: the rows become the result of [arrayMove] and one call
    carries their identifiers. *)
Lemma dropOn_cases ADMIN over s :
  (updateCalls (dropOn ADMIN over s) = updateCalls s
   ∧ data (dropOn ADMIN over s) = data s)
  ∨ ∃ a o retval,
      active s = Some a ∧ over = Some o
      ∧ arrayMove (data s) (indexOf a (dataIds s)) (indexOf o (dataIds s))
        = Some retval
      ∧ dropOn ADMIN over s
        = setData retval
            (updateChannel (row_id <$> retval) (setActive None s)).
Proof.
  unfold dropOn.
  destruct (active s) as [a|] eqn:Ha; [|by left].
  unfold handleDragEnd. simpl.
  destruct (negb (user_level s =? ADMIN)); [by left|].
  destruct over as [o|]; [|by left].
  destruct (a =? o); [by left|].
  change (dataIds (setActive None s)) with (dataIds s).
  destruct (arrayMove _ _ _) as [retval|] eqn:Hmove; [|by left].
  right. by exists a, o, retval.
Qed.

Lemma app_singleton_ne {A} (l : list A) x : l ++ [x] ≠ l.
Proof.
  intros Heq. apply (f_equal length) in Heq.
  rewrite length_app in Heq. simpl in Heq. lia.
Qed.

(** C6 as written fails when drops overlap.  An administrator drags C to
    the first place, then, with that call still in flight, D onto B; one
    of the two calls fails.  The rows on display are those of the second
    drop, not of the first, and with the other call in flight the
    coordinator is Committing, not Idle. *)
Lemma overlapping_drop_failure :
  let drop1 :=
    dropOn 10 (Some 1) (grab 3 (idle 10 [rowA; rowB; rowC; rowD])) in
  let drop2 := dropOn 10 (Some 2) (grab 4 drop1) in
  let failed := updateFailed drop2 in
  data drop1 = [rowC; rowA; rowB; rowD]
  ∧ updateCalls drop2 = [[3; 1; 2; 4]; [3; 1; 4; 2]]
  ∧ data failed = [rowC; rowA; rowD; rowB]
  ∧ data failed ≠ data drop1
  ∧ phase failed = Committing
  ∧ phase failed ≠ Idle.
Proof. repeat split; done. Qed.

(** C6, as the code has it: the persist call has no rejection handler,
    so a failure, whenever it arrives, changes nothing on display and
    fetches nothing: the rows stay in the order they were in, which for a
    failure that follows its drop directly is the optimistic order the
    drop applied (the result of [arrayMove], which the call carried);
    nothing is rolled back.  The coordinator is Idle after the failure
    exactly when no gesture is tracked and no other call is in flight;
    with another call in flight it stays Committing. *)
Theorem failed_persist_keeps_displayed_order (ADMIN : Z) (s : State)
    (over : option Z) :
  let dropped := dropOn ADMIN over s in
  let failed := updateFailed dropped in
  (∀ s0,
     data (updateFailed s0) = data s0
     ∧ updateCalls (updateFailed s0) = updateCalls s0
     ∧ requeries (updateFailed s0) = requeries s0
     ∧ active (updateFailed s0) = active s0
     ∧ (phase (updateFailed s0) = Idle
        ↔ active s0 = None ∧ (inFlight s0 ≤ 1)%nat))
  ∧ (updateCalls dropped ≠ updateCalls s →
     (∃ a o,
        active s = Some a ∧ over = Some o
        ∧ arrayMove (data s) (indexOf a (dataIds s)) (indexOf o (dataIds s))
          = Some (data dropped))
     ∧ updateCalls dropped = updateCalls s ++ [row_id <$> data dropped]
     ∧ data failed = data dropped
     ∧ updateCalls failed = updateCalls dropped
     ∧ requeries failed = requeries s
     ∧ (inFlight s = 0%nat → phase failed = Idle)
     ∧ (inFlight s ≠ 0%nat → phase failed = Committing)).
Proof.
  intros dropped failed. split.
  - intros s0. do 4 (split; [done|]). unfold phase. simpl.
    destruct (active s0); [split; [done | by intros [? _]]|].
    destruct (inFlight s0) as [|[|n]]; simpl; split; try done;
      try (intros _; split; [done|lia]).
    intros [_ ?]. lia.
  - intros Hcall. unfold failed, dropped in *.
    destruct (dropOn_cases ADMIN over s)
      as [[Hsame _]|(a & o & retval & Ha & Ho & Hmove & Hdrop)]; [done|].
    rewrite Hdrop. simpl.
    split; [by exists a, o|]. do 4 (split; [done|]).
    unfold phase. simpl.
    split; [by intros ->|]. by destruct (inFlight s).
Qed.

Lemma failed_persist_keeps_displayed_order_witness :
  let s := grab 3 (idle 10 [rowA; rowB; rowC; rowD]) in
  let dropped := dropOn 10 (Some 1) s in
  let again := dropOn 10 (Some 2) (grab 4 dropped) in
  (data (updateFailed dropped) = [rowC; rowA; rowB; rowD]
   ∧ phase (updateFailed dropped) = Idle)
  ∧ (data (updateFailed again) = [rowC; rowA; rowD; rowB]
     ∧ phase (updateFailed again) = Committing).
Proof.
  intros s dropped again. split.
  - destruct (failed_persist_keeps_displayed_order 10 s (Some 1))
      as (_ & Hdrop).
    destruct (Hdrop ltac:(discriminate)) as (_ & _ & Hdata & _ & _ & Hidle & _).
    split; [exact Hdata | exact (Hidle eq_refl)].
  - destruct (failed_persist_keeps_displayed_order 10 (grab 4 dropped)
                (Some 2)) as (_ & Hdrop).
    destruct (Hdrop ltac:(discriminate))
      as (_ & _ & Hdata & _ & _ & _ & Hbusy).
    split; [exact Hdata | exact (Hbusy ltac:(discriminate))].
Defined.

End ReorderFacts.

(** * Further properties of the components *)

(** ** StreamsTable: paging *)
Module PagingFacts.
Import StreamsTable.

Lemma pretty_page_roundtrip page : pretty (page - 1 + 1) = pretty page.
Proof. f_equal. lia. Qed.

(** X1: a page change to page 0 or past the last page is ignored; any
    other page becomes the current one and is the page the fetch that
    follows asks for, with the page size, sort and filters as they were.
    A change of the page size keeps the page index. *)
Theorem page_change_bounds_and_request (page : Z) (s : State) :
  (page = 0 ∨ pageCount s < page → onPageIndexChange page s = s)
  ∧ (page ≠ 0 → page ≤ pageCount s →
       let s' := onPageIndexChange page s in
       pagination s'
       = {| pageIndex := page - 1; pageSize := pageSize (pagination s) |}
       ∧ fetchCalls s' = fetchCalls s ++ [callOf s']
       ∧ fc_params (callOf s')
         = ("page", pretty page)
           :: ("page_size", pretty (pageSize (pagination s)))
           :: orderingParam (sorting s) ++ filterParams (debouncedFilters s))
  ∧ (∀ value,
       let s' := onPageSizeChange value s in
       pagination s'
       = {| pageIndex := pageIndex (pagination s); pageSize := value |}
       ∧ fetchCalls s' = fetchCalls s ++ [callOf s']
       ∧ fc_params (callOf s')
         = ("page", pretty (pageIndex (pagination s) + 1))
           :: ("page_size", pretty value)
           :: orderingParam (sorting s) ++ filterParams (debouncedFilters s)).
Proof.
  split; [|split].
  - unfold onPageIndexChange. intros [->|Hgt]; [done|].
    destruct (Z.ltb_spec (pageCount s) page); [|lia].
    by rewrite orb_true_r.
  - intros Hne Hle. unfold onPageIndexChange.
    destruct (Z.eqb_spec page 0); [done|].
    destruct (Z.ltb_spec (pageCount s) page); [lia|]. simpl.
    split; [done|]. split; [done|].
    unfold fetchParams. simpl. by rewrite pretty_page_roundtrip.
  - done.
Qed.

Lemma page_change_bounds_and_request_witness :
  onPageIndexChange 0 page3 = page3
  ∧ onPageIndexChange 4 page3 = page3
  ∧ fc_params (callOf (onPageIndexChange 2 page3))
    = [("page", "2"); ("page_size", "50"); ("ordering", "-name");
       ("name", "fox")].
Proof.
  destruct (page_change_bounds_and_request 0 page3) as (H0 & _).
  destruct (page_change_bounds_and_request 4 page3) as (H4 & _).
  destruct (page_change_bounds_and_request 2 page3) as (_ & H2 & _).
  split; [apply H0; by left|]. split; [apply H4; right; reflexivity|].
  apply (H2 ltac:(discriminate) ltac:(discriminate)).
Defined.

(** X2: when a fetch for an existing page succeeds (the page starts
    before the end of the count), the range it displays lies within the
    count and spans at most one page size, the page is among the pages
    counted, and the range ends at the count exactly on the last page.
    With a count of zero the page count is 0 and the first page reads
    1 to 0 of 0. *)
Theorem range_within_count (s s' : State) (result : QueryResult)
    (ids : list Z) (groups : list string) :
  let p := pagination s in
  let finished := fetchSucceeded (callOf s) result ids groups s' in
  0 < pageSize p →
  (0 ≤ pageIndex p → pageIndex p * pageSize p < count result →
     paginationString finished
     = pretty (startItem p) +:+ " to "
       +:+ pretty (endItem p (count result)) +:+ " of "
       +:+ pretty (count result)
     ∧ 1 ≤ startItem p ≤ endItem p (count result)
     ∧ endItem p (count result) ≤ count result
     ∧ endItem p (count result) - startItem p < pageSize p
     ∧ pageIndex p + 1 ≤ pageCount finished
     ∧ (pageIndex p + 1 = pageCount finished
        ↔ endItem p (count result) = count result))
  ∧ (count result = 0 → pageIndex p = 0 →
     pageCount finished = 0
     ∧ paginationString finished = "1 to 0 of 0").
Proof.
  intros p finished Hps.
  assert (pageCount finished = ceilDiv (count result) (pageSize p)) as Hpc.
  { unfold finished, fetchSucceeded. simpl.
    by destruct (initialDataCount s). }
  assert (paginationString finished = rangeString p (count result)) as Hstr.
  { unfold finished, fetchSucceeded. simpl.
    by destruct (initialDataCount s). }
  pose proof (FetchFacts.ceilDiv_bounds (count result) (pageSize p) Hps)
    as Hceil.
  split.
  - intros Hidx Hlt. rewrite Hpc. split; [exact Hstr|].
    unfold startItem, endItem.
    repeat split; nia.
  - intros H0 Hidx. rewrite Hpc, Hstr.
    unfold rangeString, startItem, endItem, ceilDiv.
    rewrite H0, Hidx. simpl.
    rewrite Z.min_r by lia. done.
Qed.

Lemma range_within_count_witness :
  let result := {| results := []; count := 120 |} in
  let finished := fetchSucceeded (callOf page3) result [] [] page3 in
  paginationString finished = "101 to 120 of 120"
  ∧ endItem (pagination page3) 120 = 120
  ∧ pageCount finished = 3.
Proof.
  intros result finished.
  destruct (range_within_count page3 page3 result [] [] eq_refl)
    as (Hin & _).
  destruct (Hin ltac:(discriminate) eq_refl)
    as (Hstr & _ & _ & _ & Hle & Hlast).
  split; [exact Hstr|]. split; [reflexivity|].
  symmetry. apply Hlast. reflexivity.
Defined.

(** X19: responses are applied as they arrive, with no check against
    the query the table has moved on to.  When the user goes to one page
    and then to another and the response for the first page arrives
    last, the table shows the rows and the range of the first page while
    its pagination state is on the second. *)
Theorem responses_apply_in_arrival_order (s : State) (pageA pageB : Z)
    (resultA resultB : QueryResult) (idsA idsB : list Z)
    (groupsA groupsB : list string) :
  pageA ≠ 0 → pageA ≤ pageCount s → pageB ≠ 0 → pageB ≤ pageCount s →
  let sA := onPageIndexChange pageA s in
  let sB := onPageIndexChange pageB sA in
  let shown :=
    fetchSucceeded (callOf sA) resultA idsA groupsA
      (fetchSucceeded (callOf sB) resultB idsB groupsB sB) in
  fetchCalls sB = fetchCalls s ++ [callOf sA; callOf sB]
  ∧ data shown = results resultA
  ∧ allRowIds shown = idsA
  ∧ paginationString shown
    = rangeString
        {| pageIndex := pageA - 1; pageSize := pageSize (pagination s) |}
        (count resultA)
  ∧ pagination shown
    = {| pageIndex := pageB - 1; pageSize := pageSize (pagination s) |}
  ∧ isLoading shown = false.
Proof.
  intros HA0 HA HB0 HB sA sB shown.
  assert (sA = fetchData
                 (setPagination
                    {| pageIndex := pageA - 1;
                       pageSize := pageSize (pagination s) |} s)) as HsA.
  { unfold sA, onPageIndexChange.
    destruct (Z.eqb_spec pageA 0); [done|].
    by destruct (Z.ltb_spec (pageCount s) pageA); [lia|]. }
  assert (sB = fetchData
                 (setPagination
                    {| pageIndex := pageB - 1;
                       pageSize := pageSize (pagination s) |} sA)) as HsB.
  { unfold sB, onPageIndexChange. rewrite HsA. simpl.
    destruct (Z.eqb_spec pageB 0); [done|].
    by destruct (Z.ltb_spec (pageCount s) pageB); [lia|]. }
  unfold shown, fetchSucceeded. rewrite HsB, HsA. simpl.
  rewrite <- app_assoc. simpl.
  by destruct (initialDataCount s).
Qed.

Lemma responses_apply_in_arrival_order_witness :
  let sB := onPageIndexChange 3 (onPageIndexChange 2 page3) in
  let shown :=
    fetchSucceeded (callOf (onPageIndexChange 2 page3))
      {| results := [ChannelStreams.rowA]; count := 120 |} [1] []
      (fetchSucceeded (callOf sB)
         {| results := [ChannelStreams.rowB]; count := 120 |} [2] [] sB) in
  data shown = [ChannelStreams.rowA]
  ∧ paginationString shown = "51 to 100 of 120"
  ∧ pageIndex (pagination shown) = 2.
Proof.
  intros sB shown.
  destruct (responses_apply_in_arrival_order page3 2 3
              {| results := [ChannelStreams.rowA]; count := 120 |}
              {| results := [ChannelStreams.rowB]; count := 120 |}
              [1] [2] [] [])
    as (_ & Hdata & _ & Hstr & Hpag & _); try discriminate.
  fold sB shown in Hdata, Hstr, Hpag.
  split; [exact Hdata|]. split; [exact Hstr|]. by rewrite Hpag.
Defined.

End PagingFacts.

(** ** StreamsTable: the sort control of the name header *)
Module HeaderFacts.
Import StreamsTable.

Lemma nextSorting_shape column srt :
  nextSorting column srt = []
  ∨ ∃ b, nextSorting column srt
         = [{| sort_id := column; sort_desc := DescBool b |}].
Proof.
  destruct srt as [|[f d] rest]; [right; by exists false|].
  unfold nextSorting. simpl.
  destruct (String.eqb f column), (looseEqFalse d); eauto.
Qed.

(** X3: after any click on a sort control, the icon of a header agrees
    with the direction the fetch asks for: the ascending arrow on the
    sorted column when ascending, the descending arrow when descending,
    the neutral arrows on every other header and when nothing is sorted.
    Before the first click it does not: the fresh table asks for [name]
    ascending and shows the descending arrow. *)
Theorem icon_agrees_with_direction_after_click (column header : string)
    (s : State) :
  let srt := sorting (onSortingChange column s) in
  (sortField srt = Some header →
     sortingIcon header srt
     = match direction srt with
       | DirAsc => ArrowUpNarrowWide
       | DirDesc => ArrowDownWideNarrow
       | DirNone => ArrowUpDown
       end)
  ∧ (sortField srt ≠ Some header → sortingIcon header srt = ArrowUpDown)
  ∧ (∀ groups,
       direction (sorting (initialState groups)) = DirAsc
       ∧ sortingIcon "name" (sorting (initialState groups))
         = ArrowDownWideNarrow).
Proof.
  intros srt. unfold srt. rewrite SortingFacts.sorting_onSortingChange.
  destruct (nextSorting_shape column (sorting s)) as [->|[b ->]].
  - by repeat split.
  - simpl. split; [|split; [|done]].
    + intros [= ->]. rewrite String.eqb_refl. by destruct b.
    + intros Hne. destruct (String.eqb_spec column header) as [->|]; done.
Qed.

Lemma icon_agrees_with_direction_after_click_witness :
  let s1 := onSortingChange "name" (initialState []) in
  let s3 := onSortingChange "name" (onSortingChange "name" s1) in
  sortingIcon "name" (sorting s1) = ArrowDownWideNarrow
  ∧ sortingIcon "name" (sorting s3) = ArrowUpNarrowWide
  ∧ sortingIcon "group" (sorting s3) = ArrowUpDown.
Proof.
  intros s1 s3.
  split; [|split].
  - apply (proj1 (icon_agrees_with_direction_after_click "name" "name"
                    (initialState []))). reflexivity.
  - apply (proj1 (icon_agrees_with_direction_after_click "name" "name"
                    (onSortingChange "name" s1))). reflexivity.
  - apply (proj1 (proj2 (icon_agrees_with_direction_after_click "name"
                           "group" (onSortingChange "name" s1)))).
    discriminate.
Defined.

(** X4: once a column was clicked, three more clicks on it bring back
    the very same sort state, and the same request parameters; each of
    the clicks starts one fetch. *)
Theorem three_clicks_restore_sorting (column : string) (s : State) :
  let s1 := onSortingChange column s in
  let s4 := Nat.iter 3 (onSortingChange column) s1 in
  sorting s4 = sorting s1
  ∧ fc_params (callOf s4) = fc_params (callOf s1)
  ∧ length (fetchCalls s4) = (length (fetchCalls s1) + 3)%nat.
Proof.
  intros s1 s4. unfold s4, s1. simpl.
  rewrite !length_app. simpl.
  destruct (nextSorting_shape column (sorting s)) as [->|[[] ->]];
    simpl; rewrite ?String.eqb_refl; simpl; rewrite ?String.eqb_refl;
    simpl; (split; [done|split; [done|lia]]).
Qed.

End HeaderFacts.

(** ** StreamsTable: the filter object *)
Module FilterObjectFacts.
Import StreamsTable.

Lemma editedFilters_objSet e f :
  editedFilters e f = objSet (editKey e) (editValue e) f.
Proof. by destruct e. Qed.

Lemma objKeys_objSet key v f :
  key ∈ objKeys f → objKeys (objSet key v f) = objKeys f.
Proof.
  unfold objKeys. induction f as [|[k x] f IH]; simpl.
  - by intros ?%elem_of_nil.
  - intros Hin. destruct (String.eqb_spec k key) as [->|Hne]; [done|].
    simpl. f_equal. apply IH.
    apply elem_of_cons in Hin as [->|]; done.
Qed.

Lemma objGet_objSet key v f : objGet key (objSet key v f) = Some v.
Proof.
  induction f as [|[k x] f IH]; simpl; [by rewrite String.eqb_refl|].
  destruct (String.eqb_spec k key) as [->|Hne]; simpl.
  - by rewrite String.eqb_refl.
  - by apply String.eqb_neq in Hne as ->.
Qed.

Lemma objGet_objSet_ne key k' v f :
  k' ≠ key → objGet k' (objSet key v f) = objGet k' f.
Proof.
  intros Hne. induction f as [|[k x] f IH]; simpl.
  - by apply not_eq_sym, String.eqb_neq in Hne as ->.
  - destruct (String.eqb_spec k key) as [->|Hk]; simpl; [|by rewrite IH].
    by apply not_eq_sym, String.eqb_neq in Hne as ->.
Qed.

Lemma elem_of_objSet_key key v x f :
  NoDup (objKeys f) → (key, x) ∈ objSet key v f ↔ x = v.
Proof.
  unfold objKeys. induction f as [|[k y] f IH]; simpl; intros Hnd.
  - rewrite list_elem_of_singleton. split; [by intros [= ->] | by intros ->].
  - apply NoDup_cons in Hnd as [Hk Hnd].
    destruct (String.eqb_spec k key) as [->|Hne].
    + rewrite elem_of_cons. split; [|intros ->; by left].
      intros [[= ->]|Hin]; [done|].
      destruct Hk. apply list_elem_of_fmap. by exists (key, x).
    + rewrite elem_of_cons, IH by done.
      split; [|by right]. by intros [[= -> ->]|].
Qed.

Lemma page3_keys_NoDup : NoDup (objKeys (filters page3)).
Proof. apply (bool_decide_unpack _). by vm_compute. Qed.

Lemma editAll_keys evs : ∀ f,
  Forall (λ te, editKey te.2 ∈ objKeys f) evs →
  objKeys (editAll evs f) = objKeys f.
Proof.
  unfold editAll.
  induction evs as [|[t e] evs IH]; intros f Hall; [done|].
  apply Forall_cons in Hall as [He Hall]. simpl in *.
  rewrite editedFilters_objSet.
  rewrite IH; rewrite objKeys_objSet by done; done.
Qed.

(** X5: an edit of a filter that is in the filter object changes the
    value under that key and nothing else: the keys and their order
    stay, the edited key reads back the new value, every other key reads
    what it read before.  Under any sequence of such edits a fresh table
    keeps its three keys, so a request never repeats a filter. *)
Theorem filter_edit_updates_one_key (e : FilterEdit) (f : Filters) :
  editKey e ∈ objKeys f →
  let f' := editedFilters e f in
  (objKeys f' = objKeys f
   ∧ objGet (editKey e) f' = Some (editValue e)
   ∧ (∀ k, k ≠ editKey e → objGet k f' = objGet k f))
  ∧ (∀ now s, filters s = f → filters (handleEdit now e s) = f')
  ∧ (∀ evs : list (Z * FilterEdit),
       Forall (λ te, editKey te.2 ∈ objKeys initialFilters) evs →
       objKeys (editAll evs initialFilters)
       = ["name"; "channel_group"; "m3u_account"]).
Proof.
  intros Hin f'. split; [|split].
  - unfold f'. rewrite editedFilters_objSet.
    split; [by apply objKeys_objSet|]. split; [apply objGet_objSet|].
    intros k Hk. by apply objGet_objSet_ne.
  - intros now s <-. by destruct e.
  - intros evs Hall. by rewrite editAll_keys.
Qed.

Lemma filter_edit_updates_one_key_witness :
  let f' := editedFilters (InputChange "name" "bbc") (filters page3) in
  objKeys f' = ["name"; "channel_group"; "m3u_account"]
  ∧ objGet "name" f' = Some (FStr "bbc")
  ∧ objGet "m3u_account" f' = Some (FStr "").
Proof.
  intros f'.
  destruct (filter_edit_updates_one_key (InputChange "name" "bbc")
              (filters page3)) as ((Hkeys & Hset & Hother) & _); [by left|].
  split; [exact Hkeys|]. split; [exact Hset|]. by rewrite Hother.
Defined.

Lemma filterParams_key_absent key f :
  key ∉ objKeys f →
  List.filter (λ kv, String.eqb kv.1 key) (filterParams f) = [].
Proof.
  unfold objKeys, filterParams.
  induction f as [|[k v] f IH]; simpl; [done|].
  rewrite not_elem_of_cons. intros [Hne Hin].
  rewrite List.filter_app, IH, app_nil_r by done.
  destruct (filterTruthy v); simpl; [|done].
  by apply not_eq_sym, String.eqb_neq in Hne as ->.
Qed.

Lemma filterParams_key_once key v f :
  NoDup (objKeys f) →
  List.filter (λ kv, String.eqb kv.1 key) (filterParams (objSet key v f))
  = if filterTruthy v then [(key, filterToString v)] else [].
Proof.
  unfold objKeys. induction f as [|[k x] f IH]; simpl; intros Hnd.
  - unfold filterParams. simpl. destruct (filterTruthy v); simpl; [|done].
    by rewrite String.eqb_refl.
  - apply NoDup_cons in Hnd as [Hk Hnd].
    destruct (String.eqb_spec k key) as [->|Hne].
    + change (filterParams ((key, v) :: f))
        with ((if filterTruthy v then [(key, filterToString v)] else [])
              ++ filterParams f).
      rewrite List.filter_app, filterParams_key_absent, app_nil_r by done.
      destruct (filterTruthy v); simpl; [|done].
      by rewrite String.eqb_refl.
    + change (filterParams ((k, x) :: objSet key v f))
        with ((if filterTruthy x then [(k, filterToString x)] else [])
              ++ filterParams (objSet key v f)).
      rewrite List.filter_app, IH by done.
      destruct (filterTruthy x); simpl; [|done].
      by apply String.eqb_neq in Hne as ->.
Qed.

(** X6: of an edited filter the request built from the filter object
    carries the key exactly when the value is truthy, and then once, with
    the value as a string.  So a group selection is sent as its
    comma-joined names, the empty selection of the multi-select as
    [channel_group] with an empty value, and a cleared group or playlist
    filter is not sent. *)
Theorem edited_filter_is_sent_iff_truthy (e : FilterEdit) (f : Filters) :
  NoDup (objKeys f) →
  let sent := filterParams (editedFilters e f) in
  (∀ p srt, fetchParams p srt (editedFilters e f)
            = ("page", pretty (pageIndex p + 1))
              :: ("page_size", pretty (pageSize p))
              :: orderingParam srt ++ sent)
  ∧ List.filter (λ kv, String.eqb kv.1 (editKey e)) sent
    = (if filterTruthy (editValue e)
       then [(editKey e, filterToString (editValue e))] else [])
  ∧ (∀ v', (editKey e, v') ∈ sent
           ↔ filterTruthy (editValue e) = true
             ∧ v' = filterToString (editValue e))
  ∧ (∀ l, e = GroupChange (Some l) → ("channel_group", joinComma l) ∈ sent)
  ∧ (e = GroupChange None ∨ e = M3UChange None ∨ e = M3UChange (Some "") →
     ∀ v', (editKey e, v') ∉ sent).
Proof.
  intros Hnd sent.
  assert (∀ v', (editKey e, v') ∈ sent
         ↔ filterTruthy (editValue e) = true
           ∧ v' = filterToString (editValue e)) as Hiff.
  { intros v'. unfold sent.
    rewrite FetchFacts.elem_of_filterParams, editedFilters_objSet.
    split.
    - intros (v & Hin & Ht & ->).
      apply elem_of_objSet_key in Hin as ->; done.
    - intros [Ht ->]. exists (editValue e).
      by rewrite elem_of_objSet_key. }
  split; [done|].
  split; [unfold sent; rewrite editedFilters_objSet;
          by apply filterParams_key_once|].
  split; [exact Hiff|]. split.
  - intros l ->. by apply Hiff.
  - intros Hcases v' Hin. apply Hiff in Hin as [Ht _].
    by destruct Hcases as [->|[->| ->]].
Qed.

Lemma edited_filter_is_sent_iff_truthy_witness :
  let sent e := filterParams (editedFilters e (filters page3)) in
  ("channel_group", "News,Sport") ∈ sent (GroupChange (Some ["News"; "Sport"]))
  ∧ ("channel_group", "") ∈ sent (GroupChange (Some []))
  ∧ ("m3u_account", "") ∉ sent (M3UChange None).
Proof.
  intros sent. split; [|split].
  - destruct (edited_filter_is_sent_iff_truthy
                (GroupChange (Some ["News"; "Sport"])) (filters page3)
                page3_keys_NoDup) as (_ & _ & _ & H & _).
    exact (H ["News"; "Sport"] eq_refl).
  - destruct (edited_filter_is_sent_iff_truthy
                (GroupChange (Some [])) (filters page3)
                page3_keys_NoDup) as (_ & _ & _ & H & _).
    exact (H [] eq_refl).
  - destruct (edited_filter_is_sent_iff_truthy
                (M3UChange None) (filters page3)
                page3_keys_NoDup) as (_ & _ & _ & _ & H).
    apply H. auto.
Defined.

End FilterObjectFacts.

(** ** StreamsTable: adding streams to the selected channel *)
Module ChannelAssignFacts.
Import StreamsTable.

Lemma setAddAll_NoDup l : ∀ acc, NoDup acc → NoDup (setAddAll acc l).
Proof.
  induction l as [|x l IH]; intros acc Hnd; [done|].
  simpl. apply IH. case_bool_decide; [done|].
  apply NoDup_app. split; [done|]. split; [|apply NoDup_singleton].
  intros y Hy ->%list_elem_of_singleton. done.
Qed.

Lemma elem_of_setAddAll l : ∀ acc x,
  x ∈ setAddAll acc l ↔ x ∈ acc ∨ x ∈ l.
Proof.
  induction l as [|y l IH]; intros acc x; simpl.
  - rewrite elem_of_nil. tauto.
  - rewrite IH, elem_of_cons. case_bool_decide as Hy.
    + split; [tauto|]. intros [?|[->|?]]; auto.
    + rewrite elem_of_app, list_elem_of_singleton. tauto.
Qed.

Lemma setAddAll_prefix l : ∀ acc, acc `prefix_of` setAddAll acc l.
Proof.
  induction l as [|y l IH]; intros acc; simpl; [done|].
  case_bool_decide; [apply IH|].
  etransitivity; [|apply IH]. by apply prefix_app_r.
Qed.

Lemma setAddAll_app a : ∀ acc b,
  NoDup (acc ++ a) → setAddAll acc (a ++ b) = setAddAll (acc ++ a) b.
Proof.
  induction a as [|x a IH]; intros acc b Hnd; simpl.
  - by rewrite app_nil_r.
  - rewrite cons_middle, app_assoc in Hnd.
    rewrite bool_decide_false.
    + rewrite IH by done. by rewrite <- app_assoc.
    + apply NoDup_app in Hnd as (Hnd & _ & _).
      apply NoDup_app in Hnd as (_ & Hnd & _).
      intros Hin. by apply (Hnd x Hin), list_elem_of_singleton.
Qed.

Lemma newSet_keeps_prefix a b :
  NoDup a → newSet (a ++ b) = setAddAll a b.
Proof. intros Hnd. unfold newSet. by rewrite setAddAll_app. Qed.

(** X7: the stream list [addStreamsToChannel] sends holds no identifier
    twice and holds exactly the channel's streams and the selected ones;
    the channel's streams come first, in their order, so that adding
    never reorders what the channel has.  With no stream list for the
    selected channel the call throws before anything is sent.  The
    button is enabled only with some stream and exactly one channel
    selected. *)
Theorem added_streams_are_a_set_extending_the_channel
    (selectedChannelIds selectedStreamIds : list Z) (streams : list Row) :
  (∃ update,
     addStreamsToChannel selectedChannelIds (Some streams) selectedStreamIds
     = Some update
     ∧ cu_id update = head selectedChannelIds
     ∧ NoDup (cu_streams update)
     ∧ (∀ x, x ∈ cu_streams update
             ↔ x ∈ row_id <$> streams ∨ x ∈ selectedStreamIds)
     ∧ (NoDup (row_id <$> streams) →
        (row_id <$> streams) `prefix_of` cu_streams update))
  ∧ addStreamsToChannel selectedChannelIds None selectedStreamIds = None
  ∧ (addStreamsDisabled selectedStreamIds selectedChannelIds = false →
     selectedStreamIds ≠ [] ∧ ∃ cid, selectedChannelIds = [cid]).
Proof.
  split; [|split; [done|]].
  - eexists. split; [reflexivity|]. simpl.
    split; [done|]. split; [apply setAddAll_NoDup, NoDup_nil_2|].
    split.
    + intros x. unfold newSet.
      rewrite elem_of_setAddAll, elem_of_nil, elem_of_app. tauto.
    + intros Hnd. rewrite newSet_keeps_prefix by done.
      apply setAddAll_prefix.
  - unfold addStreamsDisabled.
    intros [Hs Hc]%negb_false_iff%andb_prop.
    apply Nat.eqb_eq in Hc. split.
    + by destruct selectedStreamIds.
    + destruct selectedChannelIds as [|cid [|? ?]]; try done.
      by exists cid.
Qed.

Lemma added_streams_are_a_set_extending_the_channel_witness :
  addStreamsToChannel [7]
    (Some [ChannelStreams.rowB; ChannelStreams.rowA]) [1; 3; 3; 4]
  = Some {| cu_id := Some 7; cu_streams := [2; 1; 3; 4] |}
  ∧ [2; 1] `prefix_of` [2; 1; 3; 4].
Proof.
  destruct (added_streams_are_a_set_extending_the_channel [7] [1; 3; 3; 4]
              [ChannelStreams.rowB; ChannelStreams.rowA])
    as ((update & Hupdate & _ & _ & _ & Hprefix) & _ & _).
  injection Hupdate as <-. split; [reflexivity|].
  apply Hprefix. apply (bool_decide_unpack _). by vm_compute.
Defined.

(** X8: while the Add to Channel icon of a row is enabled, exactly one
    channel is selected and the row's stream is not among that channel's
    streams; the click then sends the channel's streams with the row's
    stream appended.  The icon is also enabled when the selected channel
    has no stream list in the store, and the click then throws. *)
Theorem add_to_channel_appends_when_enabled (channels : list Channel)
    (selectedChannelIds : list Z) (rowId : Z) :
  let selection := channelSelectionStreams channels selectedChannelIds in
  addToChannelDisabled selectedChannelIds selection rowId = false →
  ∃ cid,
    selectedChannelIds = [cid]
    ∧ match selection with
      | Some streams =>
          (rowId ∉ row_id <$> streams)
          ∧ (∃ c, c ∈ channels ∧ chan_id c = cid ∧ chan_streams c = streams)
          ∧ (NoDup (row_id <$> streams) →
             addStreamToChannel selectedChannelIds selection rowId
             = Some {| cu_id := Some cid;
                       cu_streams := (row_id <$> streams) ++ [rowId] |})
      | None =>
          addStreamToChannel selectedChannelIds selection rowId = None
      end.
Proof.
  intros selection. unfold addToChannelDisabled.
  intros [Hlen Hin]%orb_false_elim.
  apply negb_false_iff, Nat.eqb_eq in Hlen.
  destruct selectedChannelIds as [|cid [|? ?]]; try done.
  exists cid. split; [done|].
  destruct selection as [streams|] eqn:Hsel; [|done].
  apply bool_decide_eq_false in Hin. split; [done|]. split.
  - unfold selection, channelSelectionStreams in Hsel.
    destruct (List.find _ channels) as [c|] eqn:Hfind; [|done].
    injection Hsel as <-. apply find_some in Hfind as [Hc Hid].
    exists c. rewrite list_elem_of_In. by apply Z.eqb_eq in Hid.
  - intros Hnd. unfold addStreamToChannel. simpl. do 2 f_equal.
    rewrite newSet_keeps_prefix by done. simpl.
    by rewrite bool_decide_false.
Qed.

Lemma add_to_channel_appends_when_enabled_witness :
  let channels :=
    [{| chan_id := 7;
        chan_streams := [ChannelStreams.rowB; ChannelStreams.rowA] |}] in
  addStreamToChannel [7] (channelSelectionStreams channels [7]) 3
  = Some {| cu_id := Some 7; cu_streams := [2; 1; 3] |}
  ∧ addStreamToChannel [8] (channelSelectionStreams channels [8]) 3 = None.
Proof.
  intros channels.
  destruct (add_to_channel_appends_when_enabled channels [7] 3 eq_refl)
    as (cid & [= <-] & _ & _ & Happend).
  destruct (add_to_channel_appends_when_enabled channels [8] 3 eq_refl)
    as (cid' & _ & Hthrows).
  split; [|exact Hthrows].
  apply Happend. apply (bool_decide_unpack _). by vm_compute.
Defined.

End ChannelAssignFacts.

(** ** StreamsTable: loading the channel groups *)
Module GroupsLoadFacts.
Import StreamsTable.

Lemma tableStep_keeps_groups ev s :
  keepsGroups ev = true →
  groupsLoaded (tableStep ev s) = groupsLoaded s
  ∧ channelGroups (tableStep ev s) = channelGroups s.
Proof.
  destruct ev as [now e|now|column|page|value| |c result ids groups|c error
                 | |error|groups|loading]; simpl; try done; intros _.
  - by destruct e.
  - unfold advance, EventLoop.advance.
    destruct (debounceTimer s) as [[d f]|]; [|done].
    by destruct (d <=? now).
  - unfold onPageIndexChange.
    by destruct ((page =? 0) || (pageCount s <? page)).
  - unfold fetchSucceeded. simpl. by destruct (fc_initialDataCount c).
Qed.

(** While the groups are unmarked and the store is empty, every call of
    [fetchData] first loads the groups. *)
Lemma unloaded_groups_are_requested evs : ∀ s,
  groupsLoaded s = false → channelGroups s = [] →
  forallb keepsGroups evs = true →
  ∃ calls,
    fetchCalls (tableSteps evs s) = fetchCalls s ++ calls
    ∧ Forall (λ c, fc_loadsGroups c = true) calls
    ∧ groupsLoaded (tableSteps evs s) = false
    ∧ channelGroups (tableSteps evs s) = [].
Proof.
  unfold tableSteps.
  induction evs as [|ev evs IH]; intros s Hl Hc Hk; simpl.
  - exists []. by rewrite app_nil_r.
  - simpl in Hk. apply andb_prop in Hk as [Hev Hk].
    destruct (tableStep_keeps_groups ev s Hev) as [Hl' Hc'].
    rewrite Hl in Hl'. rewrite Hc in Hc'.
    destruct (IH (tableStep ev s) Hl' Hc' Hk) as (calls & Hcalls & Hall & Hr).
    rewrite Hcalls, FetchFacts.tableStep_fetchCalls, <- app_assoc.
    eexists. split; [reflexivity|]. split; [|exact Hr].
    apply Forall_app. split; [|exact Hall].
    destruct (startsFetch ev s); [|done].
    repeat constructor. unfold callOf, noChannelGroups. simpl.
    by rewrite Hl', Hc'.
Qed.

(** X9: while the channel groups are not marked as loaded, the end of
    their load starts one more fetch, with the very parameters of the
    fetch that waited for them, and a second notice of it changes
    nothing.  A failed load is logged and starts nothing; the groups stay
    unmarked, so that with an empty store every fetch started after the
    failure tries to load them again, whatever happens in between short
    of a completed load or a new table from the store. *)
Theorem groups_load_refetches_once (s : State) :
  groupsLoaded s = false →
  let s' := groupsFetchSucceeded s in
  (fetchCalls s' = fetchCalls s ++ [callOf s']
   ∧ fc_params (callOf s') = fc_params (callOf s)
   ∧ fc_loadsGroups (callOf s') = false
   ∧ groupsFetchSucceeded s' = s')
  ∧ (∀ error,
       let failed := groupsFetchFailed error s in
       fetchCalls failed = fetchCalls s
       ∧ console failed
         = console s ++ ["Error fetching channel groups: " +:+ error]
       ∧ fetchDataDeps failed = fetchDataDeps s
       ∧ (channelGroups s = [] →
          ∀ evs, forallb keepsGroups evs = true →
            ∃ calls,
              fetchCalls (tableSteps evs failed) = fetchCalls s ++ calls
              ∧ Forall (λ c, fc_loadsGroups c = true) calls
              ∧ groupsLoaded (tableSteps evs failed) = false)).
Proof.
  intros Hg s'. unfold s', groupsFetchSucceeded. rewrite Hg.
  split; [done|]. intros error. cbv zeta.
  do 3 (split; [done|]). intros Hc evs Hk.
  destruct (unloaded_groups_are_requested evs (groupsFetchFailed error s))
    as (calls & Hcalls & Hall & Hl & _); try done.
  by exists calls.
Qed.

Lemma groups_load_refetches_once_witness :
  let s := mount [] in
  let later :=
    tableSteps [EvSort "name"; EvFetchFailed (callOf s) "offline";
                EvPageSize 25]
      (groupsFetchFailed "offline" s) in
  fc_loadsGroups <$> fetchCalls s = [true]
  ∧ fc_params <$> fetchCalls (groupsFetchSucceeded s)
    = [[("page", "1"); ("page_size", "50"); ("ordering", "name")];
       [("page", "1"); ("page_size", "50"); ("ordering", "name")]]
  ∧ fc_loadsGroups <$> fetchCalls later = [true; true; true]
  ∧ ∃ calls,
      fetchCalls later = fetchCalls s ++ calls
      ∧ Forall (λ c, fc_loadsGroups c = true) calls.
Proof.
  intros s later. split; [reflexivity|].
  destruct (groups_load_refetches_once s eq_refl)
    as ((Hcalls & Hparams & _) & Hfailed).
  split.
  - rewrite Hcalls, fmap_app, list_fmap_singleton, Hparams. reflexivity.
  - split; [reflexivity|].
    destruct (Hfailed "offline") as (_ & _ & _ & Hlater).
    destruct (Hlater eq_refl
                [EvSort "name"; EvFetchFailed (callOf s) "offline";
                 EvPageSize 25] eq_refl)
      as (calls & Hc & Hall & _).
    by exists calls.
Defined.

End GroupsLoadFacts.

(** ** M3UProfile: the preview requests *)
Module PreviewRequestFacts.
Import EventLoop EventLoopFacts M3UProfile PatternDebounceFacts.

Lemma orElse_empty a : orElse a "" = a.
Proof. unfold orElse. by destruct (String.eqb_spec a "") as [->|]. Qed.

Lemma orElse_nonempty a b : b ≠ "" → orElse a b ≠ "".
Proof. unfold orElse. by destruct (String.eqb_spec a ""). Qed.

Lemma previewEffect_sent s :
  sent (previewEffect s) = sent s ++ previewOf (debouncedPatterns s) s.
Proof.
  unfold previewEffect, previewOf.
  destruct (negb (websocketReady s) || String.eqb (streamUrl s) "");
    simpl; by rewrite ?app_nil_r.
Qed.

Lemma previewEffect_frame s :
  streamUrl (previewEffect s) = streamUrl s
  ∧ sampleInput (previewEffect s) = sampleInput s
  ∧ websocketReady (previewEffect s) = websocketReady s
  ∧ currentPatterns (previewEffect s) = currentPatterns s
  ∧ debouncedPatterns (previewEffect s) = debouncedPatterns s
  ∧ patternTimer (previewEffect s) = patternTimer s.
Proof.
  unfold previewEffect.
  by destruct (negb (websocketReady s) || String.eqb (streamUrl s) "").
Qed.

Lemma previewOf_url p s : Forall (λ m, msg_url m ≠ "") (previewOf p s).
Proof.
  unfold previewOf. destruct (negb (websocketReady s)); simpl; [done|].
  destruct (String.eqb_spec (streamUrl s) ""); [done|].
  repeat constructor. simpl. by apply orElse_nonempty.
Qed.

Lemma previewOf_not_ready p s : websocketReady s = false → previewOf p s = [].
Proof. unfold previewOf. by intros ->. Qed.

Lemma handleEdit_frame now e s :
  sent (handleEdit now e s) = sent s
  ∧ websocketReady (handleEdit now e s) = websocketReady s.
Proof.
  destruct e as [v|v]; simpl;
    unfold onSearchPatternUpdate, onReplacePatternUpdate;
    by destruct (String.eqb v _).
Qed.

(** What one event adds to the messages sent. *)
Lemma step_appends ev s :
  ∃ extra,
    sent (step ev s) = sent s ++ extra
    ∧ Forall (λ m, msg_url m ≠ "") extra
    ∧ (websocketReady s = false → ev ≠ EvSocket true →
       extra = [] ∧ websocketReady (step ev s) = false).
Proof.
  assert (∀ now, ∃ extra,
    sent (advance now s) = sent s ++ extra
    ∧ Forall (λ m, msg_url m ≠ "") extra
    ∧ websocketReady (advance now s) = websocketReady s
    ∧ (websocketReady s = false → extra = [])) as Hadvance.
  { intros now. unfold advance, EventLoop.advance.
    destruct (patternTimer s) as [[d p]|];
      [|exists []; by rewrite app_nil_r].
    destruct (d <=? now); [|exists []; by rewrite app_nil_r].
    unfold patternTimerFire. rewrite previewEffect_sent. simpl.
    eexists. split; [done|]. split; [apply previewOf_url|].
    split; [|intros Hw; by apply previewOf_not_ready].
    by destruct (previewEffect_frame
                   (setDebouncedPatterns p (setPatternTimer None s)))
      as (_ & _ & -> & _). }
  destruct ev as [now e|now|value|urls|ready]; simpl.
  - destruct (Hadvance now) as (extra & Hs & Hu & Hw & Hn).
    destruct (handleEdit_frame now e (advance now s)) as [-> ->].
    exists extra. rewrite Hw. by auto.
  - destruct (Hadvance now) as (extra & Hs & Hu & Hw & Hn).
    exists extra. rewrite Hw. by auto.
  - unfold handleSampleInputChange.
    destruct (String.eqb value (sampleInput s));
      [exists []; by rewrite app_nil_r|].
    rewrite previewEffect_sent. eexists. split; [done|].
    split; [apply previewOf_url|]. intros Hw _.
    split; [by apply previewOf_not_ready|].
    by destruct (previewEffect_frame (setSampleInput value s))
      as (_ & _ & -> & _).
  - unfold streamUrlLoaded. destruct urls as [|url urls];
      [exists []; by rewrite app_nil_r|].
    destruct (_ && _); [exists []; by rewrite app_nil_r|].
    rewrite previewEffect_sent. eexists. split; [done|].
    split; [apply previewOf_url|]. intros Hw _.
    split; [by apply previewOf_not_ready|].
    by destruct (previewEffect_frame
                   (setSampleInput url (setStreamUrl url s)))
      as (_ & _ & -> & _).
  - unfold socketChanged.
    destruct (Bool.eqb ready (websocketReady s)) eqn:Heq;
      [exists []; by rewrite app_nil_r|].
    rewrite previewEffect_sent. eexists. split; [done|].
    split; [apply previewOf_url|]. intros Hw Hne.
    rewrite Hw in Heq. destruct ready; [done|]. done.
Qed.

(** X10: whatever the form goes through (pattern edits, the clock,
    sample edits, the stream URL arriving, the socket going up and
    down), messages are only ever appended to those sent, and every one
    of them names a non-empty URL; as long as the socket has not come
    up, none is sent at all. *)
Theorem preview_requests_need_socket_and_url (evs : list Event) (s : State) :
  (∃ extra,
     sent (steps evs s) = sent s ++ extra
     ∧ Forall (λ m, msg_url m ≠ "") extra)
  ∧ (websocketReady s = false → Forall (λ ev, ev ≠ EvSocket true) evs →
     sent (steps evs s) = sent s).
Proof.
  unfold steps. revert s.
  induction evs as [|ev evs IH]; intros s; simpl.
  - split; [exists []; by rewrite app_nil_r | done].
  - destruct (step_appends ev s) as (extra & Hs & Hu & Hn).
    destruct (IH (step ev s)) as ((extra' & Hs' & Hu') & Hn').
    split.
    + exists (extra ++ extra'). rewrite Hs', Hs, app_assoc.
      split; [done|]. by apply Forall_app.
    + intros Hw [Hev Hall]%Forall_cons.
      destruct (Hn Hw Hev) as [-> Hw'].
      rewrite Hn' by done. by rewrite Hs, app_nil_r.
Qed.

Lemma preview_requests_need_socket_and_url_witness :
  let evs := [EvEdit 0 (SearchEdit "live"); EvSample "http://host/a.ts";
              EvClock 600; EvStreamUrl ["http://host/b.ts"]] in
  sent (steps evs (setWebsocketReady false blankForm)) = []
  ∧ length (sent (steps evs blankForm)) = 3%nat.
Proof.
  intros evs. split; [|reflexivity].
  apply (proj2 (preview_requests_need_socket_and_url evs
                  (setWebsocketReady false blankForm))); [reflexivity|].
  repeat constructor; discriminate.
Defined.

(** X11: the sample input and the stream URL are not debounced.  While
    pattern edits wait for their timer, a change of the sample sends a
    request at once, for the new sample and the patterns committed last,
    not the ones being typed, and leaves the timer armed; the arrival
    of the stream URL does the same with that URL. *)
Theorem sample_and_url_bypass_the_debounce (t : Z) (p : Patterns)
    (s : State) :
  websocketReady s = true →
  let typing := staged t p s in
  (∀ value,
     value ≠ sampleInput s → streamUrl s ≠ "" →
     let s' := handleSampleInputChange value typing in
     sent s'
     = sent s ++ [{| msg_url := orElse value (streamUrl s);
                     msg_search := search (debouncedPatterns s);
                     msg_replace := replace (debouncedPatterns s) |}]
     ∧ patternTimer s' = Some (t + debounceDelay, p))
  ∧ (∀ url urls,
       url ≠ "" → url ≠ streamUrl s ∨ url ≠ sampleInput s →
       let s' := streamUrlLoaded (url :: urls) typing in
       sent s'
       = sent s ++ [{| msg_url := url;
                       msg_search := search (debouncedPatterns s);
                       msg_replace := replace (debouncedPatterns s) |}]
       ∧ streamUrl s' = url ∧ sampleInput s' = url
       ∧ patternTimer s' = Some (t + debounceDelay, p))
  ∧ streamUrlLoaded [] typing = typing.
Proof.
  intros Hw typing. split; [|split; [|done]].
  - intros value Hv Hu s'. unfold s', handleSampleInputChange. simpl.
    apply String.eqb_neq in Hv as ->.
    destruct (previewEffect_frame (setSampleInput value typing))
      as (_ & _ & _ & _ & _ & ->).
    split; [|done]. rewrite previewEffect_sent.
    unfold previewOf. simpl. rewrite Hw. simpl.
    apply String.eqb_neq in Hu as ->. by rewrite !orElse_empty.
  - intros url urls Hne Hch s'. unfold s', streamUrlLoaded. simpl.
    assert (String.eqb url (streamUrl s) && String.eqb url (sampleInput s)
            = false) as ->.
    { apply andb_false_iff.
      destruct Hch as [H|H]; apply String.eqb_neq in H; auto. }
    destruct (previewEffect_frame
                (setSampleInput url (setStreamUrl url typing)))
      as (-> & -> & _ & _ & _ & ->).
    split; [|done]. rewrite previewEffect_sent.
    unfold previewOf. simpl. rewrite Hw. simpl.
    pose proof Hne as Hne'. apply String.eqb_neq in Hne' as ->.
    rewrite !orElse_empty. unfold orElse.
    by apply String.eqb_neq in Hne as ->.
Qed.

Lemma sample_and_url_bypass_the_debounce_witness :
  let typing := staged 0 {| search := "live"; replace := "vod" |} blankForm in
  sent (handleSampleInputChange "http://host/x.ts" typing)
  = [{| msg_url := "http://host/x.ts"; msg_search := "";
        msg_replace := "" |}]
  ∧ sent (streamUrlLoaded ["http://host/y.ts"] typing)
    = [{| msg_url := "http://host/y.ts"; msg_search := "";
          msg_replace := "" |}].
Proof.
  intros typing.
  destruct (sample_and_url_bypass_the_debounce 0
              {| search := "live"; replace := "vod" |} blankForm eq_refl)
    as (Hsample & Hurl & _).
  split.
  - apply (Hsample "http://host/x.ts"); discriminate.
  - apply (Hurl "http://host/y.ts" []); [discriminate|].
    left; discriminate.
Defined.

(** The timer of staged patterns runs. *)
Lemma fire_staged t p s later :
  t + debounceDelay ≤ later →
  let fired := advance later (staged t p s) in
  sent fired = sent s ++ previewOf p s
  ∧ currentPatterns fired = p
  ∧ debouncedPatterns fired = p
  ∧ (∀ q, previewOf q fired = previewOf q s).
Proof.
  intros Hlater fired. unfold fired, advance.
  erewrite advance_due; [| reflexivity | exact Hlater].
  unfold patternTimerFire. rewrite previewEffect_sent.
  destruct (previewEffect_frame
              (setDebouncedPatterns p (setPatternTimer None (staged t p s))))
    as (Hu & Hi & Hw & Hp & Hd & _).
  rewrite Hp, Hd. unfold previewOf. rewrite Hu, Hi, Hw. simpl.
  by destruct p.
Qed.

Lemma flat_map_previewOf s s' (l : list Patterns) :
  (∀ q, previewOf q s' = previewOf q s) →
  flat_map (λ q, previewOf q s') l = flat_map (λ q, previewOf q s) l.
Proof.
  intros Hprev. induction l as [|q l IH]; simpl; [done|].
  by rewrite Hprev, IH.
Qed.

Lemma spaced_run rest later : ∀ t p s,
  spacedFrom t rest = true →
  allChange rest p = true →
  lastTime t rest + debounceDelay ≤ later →
  sent (advance later (run rest (staged t p s)))
  = sent s ++ previewOf p s
    ++ flat_map (λ q, previewOf q s) (patternsAfterEach rest p)
  ∧ debouncedPatterns (advance later (run rest (staged t p s)))
    = editAll rest p.
Proof.
  induction rest as [|[t' e] rest IH]; intros t p s Hsp Hc Hlater.
  - simpl in *. destruct (fire_staged t p s later Hlater) as (-> & _ & -> & _).
    by rewrite app_nil_r.
  - simpl in Hsp, Hc, Hlater.
    apply andb_prop in Hsp as [Ht Hsp]. apply Z.leb_le in Ht.
    apply andb_prop in Hc as [Hc Hrest].
    destruct (fire_staged t p s t' Ht) as (Hsent & Hcur & _ & Hprev).
    unfold run. simpl. fold (advance t' (staged t p s)).
    rewrite handleEdit_first; rewrite Hcur; [|exact Hc].
    fold run.
    destruct (IH t' (editedPatterns e p) (advance t' (staged t p s))
                Hsp Hrest Hlater) as [-> ->].
    split; [|done].
    rewrite Hsent, Hprev, (flat_map_previewOf s _ _ Hprev).
    by rewrite <- !app_assoc.
Qed.

(** X12: pattern edits that are a quiet period or more apart are each
    committed: after the last one has waited out its period, the
    committed patterns are the last edit's, and the requests sent since
    the first edit are those of the patterns after each edit, in order,
    one for each edit while the socket is up and the stream URL known. *)
Theorem spaced_edits_each_commit (t0 : Z) (e0 : PatternEdit)
    (rest : list (Z * PatternEdit)) (s : State) (later : Z) :
  spacedFrom t0 rest = true →
  allChange ((t0, e0) :: rest) (currentPatterns s) = true →
  lastTime t0 rest + debounceDelay ≤ later →
  let evs := (t0, e0) :: rest in
  let before := advance t0 s in
  let after := advance later (run evs s) in
  sent after
  = sent before
    ++ flat_map (λ q, previewOf q s)
         (patternsAfterEach evs (currentPatterns s))
  ∧ debouncedPatterns after = editAll evs (currentPatterns s)
  ∧ (websocketReady s = true → streamUrl s ≠ "" →
     length (sent after) = (length (sent before) + length evs)%nat).
Proof.
  intros Hsp Hc Hlater evs before after.
  assert (sent after
          = sent before
            ++ flat_map (λ q, previewOf q s)
                 (patternsAfterEach evs (currentPatterns s))
          ∧ debouncedPatterns after = editAll evs (currentPatterns s))
    as [Hsent Hdeb].
  { unfold after, evs, run. simpl in *. fold run.
    apply andb_prop in Hc as [Hc Hrest].
    destruct (advance_patterns t0 s) as (Hp & Hw & Hu & Hi).
    fold (advance t0 s). rewrite handleEdit_first; rewrite Hp; [|exact Hc].
    destruct (spaced_run rest later t0
                (editedPatterns e0 (currentPatterns s)) (advance t0 s)
                Hsp Hrest Hlater) as [-> ->].
    split; [|done]. unfold before. f_equal.
    assert (∀ q, previewOf q (advance t0 s) = previewOf q s) as Hprev
      by (intros q; unfold previewOf; by rewrite Hw, Hu, Hi).
    by rewrite Hprev, (flat_map_previewOf s _ _ Hprev). }
  split; [exact Hsent|]. split; [exact Hdeb|].
  intros Hw Hu. rewrite Hsent, length_app. f_equal.
  assert (∀ q, length (previewOf q s) = 1%nat) as Hone.
  { intros q. unfold previewOf. rewrite Hw. simpl.
    by apply String.eqb_neq in Hu as ->. }
  generalize (currentPatterns s). unfold evs. clear -Hone.
  induction ((t0, e0) :: rest) as [|[t e] l IH]; intros p; simpl; [done|].
  by rewrite length_app, Hone, IH.
Qed.

Lemma spaced_edits_each_commit_witness :
  let after :=
    advance 2000
      (run [(0, SearchEdit "live"); (500, ReplaceEdit "vod");
            (1200, SearchEdit "live/")] blankForm) in
  msg_search <$> sent after = ["live"; "live"; "live/"]
  ∧ msg_replace <$> sent after = [""; "vod"; "vod"]
  ∧ debouncedPatterns after = {| search := "live/"; replace := "vod" |}.
Proof.
  intros after.
  destruct (spaced_edits_each_commit 0 (SearchEdit "live")
              [(500, ReplaceEdit "vod"); (1200, SearchEdit "live/")]
              blankForm 2000 eq_refl eq_refl
              ltac:(unfold debounceDelay; simpl; lia))
    as (Hsent & Hdeb & _).
  fold after in Hsent, Hdeb. rewrite Hsent.
  split; [reflexivity|]. split; [reflexivity | exact Hdeb].
Defined.

End PreviewRequestFacts.

(** ** ChannelStreams: what reordering and removing keep *)
Module StreamListFacts.
Import ChannelStreams ReorderFacts.

Lemma arrayMove_Permutation {A} (l l' : list A) from to :
  arrayMove l from to = Some l' → l' ≡ₚ l.
Proof.
  unfold arrayMove.
  destruct (l !! Z.to_nat _) as [x|] eqn:Hx; [|done].
  intros [= <-]. rewrite <- Permutation_middle, take_drop.
  symmetry. by apply delete_Permutation.
Qed.

Lemma indexOf_absent x l : x ∉ l → indexOf x l = -1.
Proof.
  induction l as [|y l IH]; [done|].
  rewrite not_elem_of_cons. intros [Hne Hin]. simpl.
  destruct (Z.eqb_spec x y); [done|]. by rewrite IH.
Qed.

(** What a gesture does to the rows and to the calls. *)
Lemma gesture_step ADMIN g s :
  let s' := gesture ADMIN g s in
  user_level s' = user_level s
  ∧ data s' ≡ₚ data s
  ∧ ((updateCalls s' = updateCalls s ∧ data s' = data s
      ∧ inFlight s' = inFlight s)
     ∨ (updateCalls s' = updateCalls s ++ [dataIds s']
        ∧ inFlight s' = S (inFlight s))).
Proof.
  assert (∀ s' : State,
            user_level s' = user_level s → data s' = data s →
            updateCalls s' = updateCalls s → inFlight s' = inFlight s →
            user_level s' = user_level s
            ∧ data s' ≡ₚ data s
            ∧ ((updateCalls s' = updateCalls s ∧ data s' = data s
                ∧ inFlight s' = inFlight s)
               ∨ (updateCalls s' = updateCalls s ++ [dataIds s']
                  ∧ inFlight s' = S (inFlight s)))) as Hsame.
  { intros s' Hl Hd Hu Hf. split; [done|]. split; [by rewrite Hd|].
    by left. }
  cbv zeta. destruct g as [rowId|over|]; unfold gesture.
  - unfold grab. destruct (active s); [by apply (Hsame s)|].
    by apply (Hsame (setActive (Some rowId) s)).
  - unfold dropOn. destruct (active s) as [a|]; [|by apply (Hsame s)].
    unfold handleDragEnd.
    change (user_level (setActive None s)) with (user_level s).
    destruct (negb (user_level s =? ADMIN));
      [by apply (Hsame (setActive None s))|].
    simpl ev_active. simpl ev_over.
    destruct over as [o|]; [|by apply (Hsame (setActive None s))].
    destruct (a =? o); [by apply (Hsame (setActive None s))|].
    change (dataIds (setActive None s)) with (dataIds s).
    change (data (setActive None s)) with (data s).
    destruct (arrayMove _ _ _) as [retval|] eqn:Hmove;
      [|by apply (Hsame (setActive None s))].
    simpl. split; [done|]. split; [by eapply arrayMove_Permutation|].
    by right.
  - by apply (Hsame (cancel s)).
Qed.

(** X13: whoever drags and however often, the rows on display stay a
    rearrangement of the rows there were: no gesture loses or doubles a
    row.  Every persist call issued on the way carries a rearrangement
    of the same identifiers and counts as one more call in flight; and
    if any was issued, the last one carries exactly the order on
    display at the end. *)
Theorem reorder_keeps_the_rows (ADMIN : Z) (gs : list Gesture) (s : State) :
  let s' := gestures ADMIN gs s in
  data s' ≡ₚ data s
  ∧ (∃ calls,
       updateCalls s' = updateCalls s ++ calls
       ∧ Forall (λ c, c ≡ₚ dataIds s) calls
       ∧ inFlight s' = (inFlight s + length calls)%nat
       ∧ (calls = [] → data s' = data s)
       ∧ (calls ≠ [] → last calls = Some (dataIds s'))).
Proof.
  unfold gestures. revert s.
  induction gs as [|g gs IH]; intros s; simpl.
  - split; [done|]. exists []. rewrite app_nil_r. by repeat split.
  - destruct (gesture_step ADMIN g s) as (_ & Hp & Hstep). simpl in Hstep.
    destruct (IH (gesture ADMIN g s))
      as (Hp' & calls & Hc & Hall & Hf & Hnil & Hlast).
    split; [by rewrite Hp'|].
    assert (dataIds (gesture ADMIN g s) ≡ₚ dataIds s) as Hids
      by (unfold dataIds; by rewrite Hp).
    destruct Hstep as [(Hu & Hd & Hfl)|(Hu & Hfl)].
    + exists calls. rewrite Hc, Hu, Hf, Hfl.
      split; [done|]. split.
      { eapply Forall_impl; [exact Hall|]. intros c Hcp. by rewrite Hcp. }
      split; [done|]. split; [|done]. intros Hn. by rewrite Hnil.
    + exists (dataIds (gesture ADMIN g s) :: calls).
      rewrite Hc, Hu, Hf, Hfl, <- app_assoc. simpl.
      split; [done|]. split.
      { constructor; [done|].
        eapply Forall_impl; [exact Hall|]. intros c Hcp. by rewrite Hcp. }
      split; [lia|]. split; [done|]. intros _.
      destruct calls as [|c calls]; [|by apply Hlast].
      simpl. f_equal. unfold dataIds. by rewrite Hnil.
Qed.

(** X14: edge cases of a drop by an administrator.  Released on the row
    that was dragged, or on no row, it changes nothing and persists
    nothing.  When the dragged identifier is not among the rows, the
    last row is the one moved to the target; when the target is not
    among the rows, the dragged row goes to the end. *)
Theorem drop_edge_cases (ADMIN : Z) (s : State) (a : Z) :
  user_level s = ADMIN → active s = Some a →
  (∀ over, over = None ∨ over = Some a →
     dropOn ADMIN over s = setActive None s)
  ∧ (∀ o j rows x,
       a ∉ dataIds s → position o (dataIds s) = Some j →
       data s = rows ++ [x] →
       data (dropOn ADMIN (Some o) s) = insertAt j x rows)
  ∧ (∀ o i x,
       position a (dataIds s) = Some i → data s !! i = Some x →
       o ∉ dataIds s →
       data (dropOn ADMIN (Some o) s) = removeAt i (data s) ++ [x]).
Proof.
  intros Hlevel Hactive. split; [|split].
  - intros over Hover. unfold dropOn, handleDragEnd. rewrite Hactive. simpl.
    rewrite Hlevel, Z.eqb_refl. simpl.
    destruct Hover as [->| ->]; [done|]. by rewrite Z.eqb_refl.
  - intros o j rows x Ha Hj Hdata.
    assert (a ≠ o) as Hne.
    { intros ->. apply Ha. apply position_lookup in Hj.
      by eapply list_elem_of_lookup_2. }
    pose proof (lookup_lt_Some _ _ _ (position_lookup _ _ _ Hj)) as Hlt.
    unfold dataIds in Hlt. rewrite length_fmap, Hdata, length_app in Hlt.
    simpl in Hlt.
    unfold dropOn, handleDragEnd. rewrite Hactive. simpl.
    rewrite Hlevel, Z.eqb_refl. simpl.
    destruct (Z.eqb_spec a o); [done|].
    change (dataIds (setActive None s)) with (dataIds s).
    rewrite (indexOf_absent _ _ Ha), (indexOf_position _ _ _ Hj).
    unfold arrayMove, spliceStart. rewrite Hdata, length_app. simpl.
    destruct (Z.ltb_spec (Z.of_nat j) 0); [lia|].
    replace (Z.to_nat (Z.max (Z.of_nat (length rows + 1) + -1) 0))
      with (length rows) by lia.
    rewrite lookup_app_r, Nat.sub_diag by lia. simpl.
    assert (delete (length rows) (rows ++ [x]) = rows) as ->.
    { rewrite delete_take_drop, take_app_length.
      rewrite drop_ge by (rewrite length_app; simpl; lia).
      by rewrite app_nil_r. }
    destruct (Z.ltb_spec (Z.of_nat j) 0); [lia|].
    by rewrite Z.min_l, Nat2Z.id by lia.
  - intros o i x Hi Hx Ho.
    assert (a ≠ o) as Hne.
    { intros ->. apply Ho. apply position_lookup in Hi.
      by eapply list_elem_of_lookup_2. }
    pose proof (lookup_lt_Some _ _ _ Hx) as Hlt.
    unfold dropOn, handleDragEnd. rewrite Hactive. simpl.
    rewrite Hlevel, Z.eqb_refl. simpl.
    destruct (Z.eqb_spec a o); [done|].
    change (dataIds (setActive None s)) with (dataIds s).
    rewrite (indexOf_absent _ _ Ho), (indexOf_position _ _ _ Hi).
    unfold arrayMove, spliceStart. simpl.
    destruct (Z.ltb_spec (Z.of_nat i) 0); [lia|].
    rewrite Z.min_l, Nat2Z.id by lia. rewrite Hx.
    rewrite length_delete by (by eexists).
    destruct (Z.ltb_spec (Z.of_nat (length (data s)) + -1) 0); [lia|].
    rewrite Z.min_r by lia.
    rewrite Nat2Z.id, <- (length_delete (data s) i) by (by eexists).
    rewrite take_ge, drop_ge by lia. simpl.
    by rewrite removeAt_delete.
Qed.

Lemma drop_edge_cases_witness :
  let s := grab 3 (idle 10 [rowA; rowB; rowC; rowD]) in
  let stale := grab 9 (idle 10 [rowA; rowB; rowC; rowD]) in
  dropOn 10 (Some 3) s = idle 10 [rowA; rowB; rowC; rowD]
  ∧ data (dropOn 10 (Some 1) stale) = [rowD; rowA; rowB; rowC]
  ∧ data (dropOn 10 (Some 9) s) = [rowA; rowB; rowD; rowC].
Proof.
  intros s stale.
  destruct (drop_edge_cases 10 s 3 eq_refl eq_refl) as (Hsame & _ & Hend).
  destruct (drop_edge_cases 10 stale 9 eq_refl eq_refl) as (_ & Hlast & _).
  split; [|split].
  - rewrite Hsame; [reflexivity | by right].
  - apply (Hlast 1 0%nat [rowA; rowB; rowC] rowD); try reflexivity.
    apply (bool_decide_unpack _). by vm_compute.
  - apply (Hend 9 2%nat rowC); try reflexivity.
    apply (bool_decide_unpack _). by vm_compute.
Defined.

(** X15: a drag is not held back by a persist call that is still in
    flight.  An administrator can grab and drop again while the
    coordinator is committing; the second drop issues a second call, with
    the order then on display, and two calls are in flight: when one of
    them settles, the coordinator is still committing. *)
Theorem drag_is_not_serialised (ADMIN : Z) (s : State) (a o : Z)
    (i j : nat) :
  user_level s = ADMIN → phase s = Committing → a ≠ o →
  position a (dataIds s) = Some i → position o (dataIds s) = Some j →
  let dragging := grab a s in
  let dropped := dropOn ADMIN (Some o) dragging in
  phase dragging = Dragging
  ∧ updateCalls dropped = updateCalls s ++ [dataIds dropped]
  ∧ inFlight dropped = S (inFlight s)
  ∧ (2 ≤ inFlight dropped)%nat
  ∧ phase (updateFailed dropped) = Committing
  ∧ phase (updateSucceeded dropped) = Committing.
Proof.
  intros Hlevel Hphase Hne Hi Hj dragging dropped.
  unfold phase in Hphase.
  destruct (active s) eqn:Ha; [done|].
  destruct (inFlight s) as [|n] eqn:Hf; [done|].
  assert (dragging = setActive (Some a) s) as Hdrag
    by (unfold dragging, grab; by rewrite Ha).
  assert (∃ x, data dragging !! i = Some x ∧ row_id x = a
               ∧ dropped
                 = setData (insertAt j x (removeAt i (data dragging)))
                     (updateChannel
                        (row_id <$> insertAt j x (removeAt i (data dragging)))
                        (setActive None dragging)))
    as (x & Hx & Hid & Hdrop)
    by (apply dropOn_reorders; rewrite ?Hdrag; done).
  rewrite Hdrop, Hdrag. simpl.
  rewrite Hf. unfold phase. simpl. rewrite Hf.
  repeat split; try done; lia.
Qed.

Lemma drag_is_not_serialised_witness :
  let committing :=
    dropOn 10 (Some 1) (grab 3 (idle 10 [rowA; rowB; rowC; rowD])) in
  let again := dropOn 10 (Some 2) (grab 4 committing) in
  phase committing = Committing
  ∧ updateCalls again = [[3; 1; 2; 4]; [3; 1; 4; 2]]
  ∧ inFlight again = 2%nat.
Proof.
  intros committing again.
  destruct (drag_is_not_serialised 10 committing 4 2 3%nat 2%nat)
    as (_ & Hcalls & Hf & _); try reflexivity; [discriminate|].
  split; [reflexivity|]. split; [exact Hcalls | exact Hf].
Defined.

Lemma filter_ids_sublist id (l : list Row) :
  (row_id <$> List.filter (λ r, negb (row_id r =? id)) l)
    `sublist_of` (row_id <$> l).
Proof.
  induction l as [|r l IH]; simpl; [done|].
  destruct (row_id r =? id); simpl; by constructor.
Qed.

Lemma elem_of_filter_ids id x (l : list Row) :
  x ∈ row_id <$> List.filter (λ r, negb (row_id r =? id)) l
  ↔ x ≠ id ∧ x ∈ row_id <$> l.
Proof.
  rewrite !list_elem_of_fmap. split.
  - intros (r & -> & Hin). apply list_elem_of_In, filter_In in Hin as [Hin Hne].
    apply negb_true_iff, Z.eqb_neq in Hne. split; [done|].
    exists r. by rewrite list_elem_of_In.
  - intros (Hne & r & -> & Hin). exists r. split; [done|].
    apply list_elem_of_In, filter_In. split; [by apply list_elem_of_In|].
    by apply negb_true_iff, Z.eqb_neq.
Qed.

Lemma filter_ids_absent id (l : list Row) :
  id ∉ row_id <$> l →
  List.filter (λ r, negb (row_id r =? id)) l = l.
Proof.
  induction l as [|r l IH]; simpl; [done|].
  rewrite not_elem_of_cons. intros [Hne Hin].
  apply not_eq_sym, Z.eqb_neq in Hne as ->. simpl. by rewrite IH.
Qed.

(** X16: [removeStream] sends the channel's stream identifiers without
    the removed one, the others in their order, for a user of any level;
    for a stream that is not in the list it sends the list as it is.
    The rows on display are not touched: they change when the requery
    that follows a successful call comes back, and a failed call leaves
    them and requeries nothing. *)
Theorem remove_stream_sends_the_others (stream : Row) (s : State) :
  let s' := removeStream stream s in
  ∃ streams,
    updateCalls s' = updateCalls s ++ [streams]
    ∧ (row_id stream ∉ streams)
    ∧ (∀ x, x ≠ row_id stream → (x ∈ streams ↔ x ∈ dataIds s))
    ∧ streams `sublist_of` dataIds s
    ∧ (row_id stream ∉ dataIds s → streams = dataIds s)
    ∧ data s' = data s
    ∧ inFlight s' = S (inFlight s)
    ∧ requeries (updateSucceeded s') = S (requeries s)
    ∧ data (updateFailed s') = data s
    ∧ requeries (updateFailed s') = requeries s.
Proof.
  intros s'. eexists. split; [reflexivity|].
  split; [rewrite elem_of_filter_ids; by intros [? _]|].
  split; [intros x Hx; rewrite elem_of_filter_ids; unfold dataIds; tauto|].
  split; [apply filter_ids_sublist|].
  split; [|done]. intros Hin. unfold dataIds.
  by rewrite filter_ids_absent.
Qed.

Lemma remove_stream_sends_the_others_witness :
  let s := idle 1 [rowA; rowB; rowC; rowD] in
  updateCalls (removeStream rowB s) = [[1; 3; 4]]
  ∧ data (removeStream rowB s) = [rowA; rowB; rowC; rowD].
Proof.
  intros s.
  destruct (remove_stream_sends_the_others rowB s)
    as (streams & Hcalls & _ & _ & _ & _ & Hdata & _).
  split; [|exact Hdata]. simpl in Hcalls. injection Hcalls as <-.
  reflexivity.
Defined.

End StreamListFacts.

(** ** App: routes and the authentication check *)
Module AppFacts.
Import App.

Section Router.
Variable matchPath : string → string → bool.

Lemma resolve_cases isAuthenticated location :
  resolve matchPath isAuthenticated location = fallback isAuthenticated
  ∨ ∃ r, r ∈ pageRoutes isAuthenticated
         ∧ matchPath r.1 location = true
         ∧ resolve matchPath isAuthenticated location = r.2.
Proof.
  unfold resolve.
  destruct (List.find _ _) as [r|] eqn:Hfind; [|by left].
  apply find_some in Hfind as [Hin Hm]. right. exists r.
  by rewrite list_elem_of_In.
Qed.

(** X17: whatever the router matches, a visitor who is not authenticated
    is shown the login page or sent to [/login], never one of the other
    pages; an authenticated user is never shown the login page and is
    sent only to [/channels].  When a route matches its own path, every
    location lands on a page after at most one redirect: the login page
    for a visitor, one of the other pages for a user. *)
Theorem routes_guard_the_pages (location : string) :
  (resolve matchPath false location = ShowPage Login
   ∨ resolve matchPath false location = Navigate "/login")
  ∧ (resolve matchPath true location = Navigate "/channels"
     ∨ ∃ page, page ≠ Login
               ∧ resolve matchPath true location = ShowPage page)
  ∧ ((∀ path, matchPath path path = true) →
     landing matchPath false location = ShowPage Login
     ∧ ∃ page, page ≠ Login
               ∧ landing matchPath true location = ShowPage page).
Proof.
  assert (resolve matchPath false location = ShowPage Login
          ∨ resolve matchPath false location = Navigate "/login") as Hvisitor.
  { destruct (resolve_cases false location) as [->|(r & Hin & _ & ->)];
      [by right|].
    apply list_elem_of_singleton in Hin as ->. by left. }
  assert (resolve matchPath true location = Navigate "/channels"
          ∨ ∃ page, page ≠ Login
                    ∧ resolve matchPath true location = ShowPage page)
    as Huser.
  { destruct (resolve_cases true location) as [->|(r & Hin & _ & ->)];
      [by left|].
    right. simpl in Hin. rewrite !elem_of_cons, elem_of_nil in Hin.
    destruct Hin as [->|[->|[->|[->|[->|[->|[->|[]]]]]]]];
      simpl; (eexists; split; [|reflexivity]; done). }
  split; [exact Hvisitor|]. split; [exact Huser|].
  intros Hrefl. unfold landing. split.
  - destruct Hvisitor as [->| ->]; [done|].
    unfold resolve. simpl. by rewrite Hrefl.
  - destruct Huser as [->|(page & Hne & ->)]; [|by exists page].
    exists Channels. split; [done|].
    unfold resolve, defaultRoute. simpl. by rewrite Hrefl.
Qed.
End Router.

Lemma routes_guard_the_pages_witness :
  landing String.eqb false "/settings" = ShowPage Login
  ∧ landing String.eqb true "/login" = ShowPage Channels
  ∧ landing String.eqb true "/settings" = ShowPage Settings.
Proof.
  destruct (routes_guard_the_pages String.eqb "/settings")
    as (_ & _ & Hland).
  destruct (Hland String.eqb_refl) as [Hvisitor _].
  split; [exact Hvisitor|]. split; reflexivity.
Defined.

(** X18: the authentication check ends in two calls, [initializeAuth]
    and [initData], exactly when the user is logged in and the initial
    data load; in every other case its last call is [logout].  An error
    is logged exactly for the call that was made and rejected, and
    [initData] is called only for a logged-in user. *)
Theorem auth_check_logs_out_unless_ready (auth : Settled bool)
    (initData logoutFirst : Settled unit) :
  let trace := checkAuth auth initData logoutFirst in
  (trace = [InitializeAuth; InitData]
   ↔ auth = Resolved true ∧ ∃ u, initData = Resolved u)
  ∧ (trace ≠ [InitializeAuth; InitData] → last trace = Some Logout)
  ∧ (InitData ∈ trace ↔ auth = Resolved true)
  ∧ (∀ error,
       ConsoleError error ∈ trace
       ↔ auth = Rejected error
         ∨ (auth = Resolved true ∧ initData = Rejected error)
         ∨ (auth = Resolved false ∧ logoutFirst = Rejected error)).
Proof.
  intros trace. subst trace.
  destruct auth as [[]|e1], initData as [u|e2], logoutFirst as [u'|e3];
    cbv [checkAuth]; (split; [|split; [|split]]);
    try (intros error); rewrite ?elem_of_cons, ?elem_of_nil.
  all: try (intuition (try congruence); fail).
  all: try (split; [by eauto | done]).
  all: try (split; [done | by intros [_ [? ?]]]).
  all: split; intuition (try congruence); eauto.
Qed.

Lemma auth_check_logs_out_unless_ready_witness :
  checkAuth (Resolved false) (Resolved ()) (Rejected "offline")
  = [InitializeAuth; Logout; ConsoleError "offline"; Logout]
  ∧ last (checkAuth (Resolved true) (Rejected "500") (Resolved ()))
    = Some Logout.
Proof.
  split; [reflexivity|].
  apply (proj1 (proj2 (auth_check_logs_out_unless_ready (Resolved true)
                         (Rejected "500") (Resolved ())))).
  discriminate.
Defined.

End AppFacts.
